(** * FocusRing: hold-to-show overlay, main process

    A shallow embedding of the Electron main process of FocusRing
    ([src/main.ts]) and of its earlier revisions, together with the
    properties of the hold-detection cycle (press, probe ticks, inferred
    release, rotation of the image index).

    The main process is single threaded: every callback (shortcut pressed,
    interval fired, window closed, activate, will-quit) runs to completion
    on the module-level variables.  The embedding keeps those variables in
    one record, threads it through a small state-and-exception monad, and
    records every call into the platform (console, window, globalShortcut,
    timers, file system) in a chronological trace. *)

From Stdlib Require Import String Ascii List Bool Arith PeanoNat NArith Lia.
From Stdlib Require Import DecimalString.
Import ListNotations.

Local Open Scope list_scope.
Local Open Scope string_scope.

(** ** Platform data *)

(** The two closures that the program hands to [globalShortcut.register]:
    the permanent press handler of [registerMainShortcut] and the empty
    closure [() => {}] of the probe. *)
Inductive Handler : Type :=
| MainShortcutHandler
| ProbeHandler.

(** What the platform answers to one [globalShortcut.register] call:
    [true], [false], or an exception. *)
Inductive RegisterAnswer : Type :=
| RegisterTrue
| RegisterFalse
| RegisterThrows (e : string).

(** What the platform answers to one [globalShortcut.unregister] call. *)
Inductive UnregisterAnswer : Type :=
| UnregisterDone
| UnregisterThrows (e : string).

Definition TimerId : Type := nat.

(** Content delivered on the ['show-image'] channel. *)
Definition Payload : Type := string.

(** The overlay [BrowserWindow] object: whether it is on screen, its
    focusability, and the last image the renderer was told to display. *)
Record BrowserWindow : Type := mkWindow {
  shown : bool;
  focusable : bool;
  image : option Payload
}.

(** File system entries.  [None] as file data or directory listing stands
    for an entry that exists but cannot be read ([readFileSync] or
    [readdirSync] throws). *)
Inductive FsNode : Type :=
| FileNode (data : option string)
| DirNode (entries : option (list string)).

Definition FileSystem : Type := string -> option FsNode.

(** Facts about the installation that the program only reads. *)
Record Host : Type := mkHost {
  (* app.getAppPath() *)
  appPath : string;
  (* path.resolve(__dirname, '..', 'images') *)
  imagesDir : string;
  (* whether mkdirSync is permitted to create directories *)
  fsWritable : bool
}.

Inductive Level : Type := LLog | LWarn | LError.

(** Calls into the platform, in the order they happen. *)
Inductive Effect : Type :=
| Console (lvl : Level) (msg : string)
| WebContentsSend (channel : string) (payload : Payload)
| WindowShow
| WindowHide
| ShortcutRegister (h : Handler) (a : RegisterAnswer)
| ShortcutUnregister (a : UnregisterAnswer)
| ShortcutUnregisterAll
| SetInterval (t : TimerId)
| ClearInterval (t : TimerId)
| Mkdir (dir : string) (ok : bool).

(** ** The world: module variables of [main.ts] and platform state *)

Record World : Type := mkWorld {
  (* let overlayWindow: BrowserWindow | null = null; *)
  overlayWindow : option BrowserWindow;
  (* let imagePaths: string[] = []; *)
  imagePaths : list string;
  (* let currentImageIndex = 0; *)
  currentImageIndex : nat;
  (* let keyCheckInterval: NodeJS.Timeout | null = null; *)
  keyCheckInterval : option TimerId;
  (* let isOverlayVisible = false; *)
  isOverlayVisible : bool;
  (* callback held by globalShortcut for SHORTCUT in this process *)
  shortcutTable : option Handler;
  (* intervals that were set and not yet cleared *)
  activeTimers : list TimerId;
  nextTimerId : TimerId;
  fileSystem : FileSystem;
  host : Host;
  trace : list Effect
}.

Definition set_overlayWindow (v : option BrowserWindow) (w : World) : World :=
  mkWorld v (imagePaths w) (currentImageIndex w) (keyCheckInterval w)
    (isOverlayVisible w) (shortcutTable w) (activeTimers w) (nextTimerId w)
    (fileSystem w) (host w) (trace w).

Definition set_imagePaths (v : list string) (w : World) : World :=
  mkWorld (overlayWindow w) v (currentImageIndex w) (keyCheckInterval w)
    (isOverlayVisible w) (shortcutTable w) (activeTimers w) (nextTimerId w)
    (fileSystem w) (host w) (trace w).

Definition set_currentImageIndex (v : nat) (w : World) : World :=
  mkWorld (overlayWindow w) (imagePaths w) v (keyCheckInterval w)
    (isOverlayVisible w) (shortcutTable w) (activeTimers w) (nextTimerId w)
    (fileSystem w) (host w) (trace w).

Definition set_keyCheckInterval (v : option TimerId) (w : World) : World :=
  mkWorld (overlayWindow w) (imagePaths w) (currentImageIndex w) v
    (isOverlayVisible w) (shortcutTable w) (activeTimers w) (nextTimerId w)
    (fileSystem w) (host w) (trace w).

Definition set_isOverlayVisible (v : bool) (w : World) : World :=
  mkWorld (overlayWindow w) (imagePaths w) (currentImageIndex w)
    (keyCheckInterval w) v (shortcutTable w) (activeTimers w) (nextTimerId w)
    (fileSystem w) (host w) (trace w).

Definition set_shortcutTable (v : option Handler) (w : World) : World :=
  mkWorld (overlayWindow w) (imagePaths w) (currentImageIndex w)
    (keyCheckInterval w) (isOverlayVisible w) v (activeTimers w)
    (nextTimerId w) (fileSystem w) (host w) (trace w).

Definition set_timers (ts : list TimerId) (next : TimerId) (w : World) : World :=
  mkWorld (overlayWindow w) (imagePaths w) (currentImageIndex w)
    (keyCheckInterval w) (isOverlayVisible w) (shortcutTable w) ts next
    (fileSystem w) (host w) (trace w).

Definition set_fileSystem (v : FileSystem) (w : World) : World :=
  mkWorld (overlayWindow w) (imagePaths w) (currentImageIndex w)
    (keyCheckInterval w) (isOverlayVisible w) (shortcutTable w)
    (activeTimers w) (nextTimerId w) v (host w) (trace w).

Definition emit (e : Effect) (w : World) : World :=
  mkWorld (overlayWindow w) (imagePaths w) (currentImageIndex w)
    (keyCheckInterval w) (isOverlayVisible w) (shortcutTable w)
    (activeTimers w) (nextTimerId w) (fileSystem w) (host w)
    (trace w ++ [e])%list.

(** ** A state-and-exception monad for callback bodies

    A JavaScript statement either completes normally with a value or
    throws; in both cases the mutations made so far stay. *)

Inductive Completion (A : Type) : Type :=
| Normal (a : A)
| Thrown (e : string).
Arguments Normal {A} a.
Arguments Thrown {A} e.

Definition JS (A : Type) : Type := World -> Completion A * World.

Definition ret {A : Type} (a : A) : JS A := fun w => (Normal a, w).

Definition bind {A B : Type} (c : JS A) (k : A -> JS B) : JS B :=
  fun w =>
    match c w with
    | (Normal a, w') => k a w'
    | (Thrown e, w') => (Thrown e, w')
    end.

Definition throw {A : Type} (e : string) : JS A := fun w => (Thrown e, w).

(** [try { c } catch (e) { h e }] *)
Definition tryCatch {A : Type} (c : JS A) (h : string -> JS A) : JS A :=
  fun w =>
    match c w with
    | (Normal a, w') => (Normal a, w')
    | (Thrown e, w') => h e w'
    end.

Definition read {A : Type} (f : World -> A) : JS A := fun w => (Normal (f w), w).

Definition update (f : World -> World) : JS unit := fun w => (Normal tt, f w).

(** The world a computation leaves behind, whether or not it threw. *)
Definition exec {A : Type} (c : JS A) (w : World) : World := snd (c w).

Declare Scope js_scope.
Delimit Scope js_scope with js.
Notation "x <- c ;; k" := (bind c (fun x => k))
  (at level 61, c at next level, right associativity) : js_scope.
Notation "c ;; k" := (bind c (fun _ => k))
  (at level 61, right associativity) : js_scope.
Local Open Scope js_scope.

(** [forEach] over an array, with the element index. *)
Fixpoint forEachFrom {A : Type} (i : nat) (f : A -> nat -> JS unit)
  (l : list A) : JS unit :=
  match l with
  | [] => ret tt
  | x :: r => f x i ;; forEachFrom (S i) f r
  end.

(** ** Platform primitives *)

Definition console_log (msg : string) : JS unit := update (emit (Console LLog msg)).
Definition console_warn (msg : string) : JS unit := update (emit (Console LWarn msg)).
Definition console_error (msg : string) : JS unit := update (emit (Console LError msg)).

(** Template literals print numbers in decimal and booleans by name. *)
Definition show_nat (n : nat) : string := NilEmpty.string_of_uint (Nat.to_uint n).
Definition show_bool (b : bool) : string := if b then "true" else "false".

(** [globalShortcut.register(SHORTCUT, h)], given the platform's answer.
    Only an accepted registration installs the callback. *)
Definition globalShortcut_register (h : Handler) (a : RegisterAnswer) : JS bool :=
  update (emit (ShortcutRegister h a)) ;;
  match a with
  | RegisterTrue => update (set_shortcutTable (Some h)) ;; ret true
  | RegisterFalse => ret false
  | RegisterThrows e => throw e
  end.

(** [globalShortcut.unregister(SHORTCUT)], given the platform's answer. *)
Definition globalShortcut_unregister (a : UnregisterAnswer) : JS unit :=
  update (emit (ShortcutUnregister a)) ;;
  match a with
  | UnregisterDone => update (set_shortcutTable None)
  | UnregisterThrows e => throw e
  end.

Definition globalShortcut_unregisterAll : JS unit :=
  update (emit ShortcutUnregisterAll) ;;
  update (set_shortcutTable None).

(** [setInterval(callback, 100)]: the callback of every interval of this
    program is the probe, so a timer is known by its identifier. *)
Definition setInterval : JS TimerId :=
  t <- read nextTimerId ;;
  ts <- read activeTimers ;;
  update (set_timers (t :: ts) (S t)) ;;
  update (emit (SetInterval t)) ;;
  ret t.

(** [clearInterval(h)]; clearing [null] does nothing. *)
Definition clearInterval (h : option TimerId) : JS unit :=
  match h with
  | None => ret tt
  | Some t =>
      ts <- read activeTimers ;;
      next <- read nextTimerId ;;
      update (set_timers (filter (fun x => negb (Nat.eqb x t)) ts) next) ;;
      update (emit (ClearInterval t))
  end.

Definition fs_existsSync (p : option string) : JS bool :=
  match p with
  | None => ret false
  | Some path =>
      fsys <- read fileSystem ;;
      ret (match fsys path with Some _ => true | None => false end)
  end.

Definition fs_readFileSync (path : string) : JS string :=
  fsys <- read fileSystem ;;
  match fsys path with
  | Some (FileNode (Some data)) => ret data
  | Some (FileNode None) => throw ("EACCES: permission denied, open '" ++ path ++ "'")
  | Some (DirNode _) => throw "EISDIR: illegal operation on a directory, read"
  | None => throw ("ENOENT: no such file or directory, open '" ++ path ++ "'")
  end.

(** [fs.mkdirSync(dir, { recursive: true })]: creates the directory when
    the host permits it, does nothing when it is already there, throws
    otherwise. *)
Definition fs_mkdirSync (dir : string) : JS unit :=
  fsys <- read fileSystem ;;
  h <- read host ;;
  match fsys dir with
  | Some (DirNode _) => update (emit (Mkdir dir true))
  | Some (FileNode _) =>
      update (emit (Mkdir dir false)) ;;
      throw ("EEXIST: file already exists, mkdir '" ++ dir ++ "'")
  | None =>
      if fsWritable h then
        update (set_fileSystem
                  (fun p => if String.eqb p dir then Some (DirNode (Some [])) else fsys p)) ;;
        update (emit (Mkdir dir true))
      else
        update (emit (Mkdir dir false)) ;;
        throw ("EACCES: permission denied, mkdir '" ++ dir ++ "'")
  end.

Definition fs_readdirSync (dir : string) : JS (list string) :=
  fsys <- read fileSystem ;;
  match fsys dir with
  | Some (DirNode (Some entries)) => ret entries
  | Some (DirNode None) => throw ("EACCES: permission denied, scandir '" ++ dir ++ "'")
  | Some (FileNode _) => throw ("ENOTDIR: not a directory, scandir '" ++ dir ++ "'")
  | None => throw ("ENOENT: no such file or directory, scandir '" ++ dir ++ "'")
  end.

(** [overlayWindow.webContents.send(channel, payload)] *)
Definition webContents_send (channel : string) (payload : Payload) : JS unit :=
  win <- read overlayWindow ;;
  match win with
  | None => throw "TypeError: Cannot read properties of null (reading 'webContents')"
  | Some bw =>
      update (set_overlayWindow (Some (mkWindow (shown bw) (focusable bw) (Some payload)))) ;;
      update (emit (WebContentsSend channel payload))
  end.

(** [overlayWindow.show()] *)
Definition window_show : JS unit :=
  win <- read overlayWindow ;;
  match win with
  | None => throw "TypeError: Cannot read properties of null (reading 'show')"
  | Some bw =>
      update (set_overlayWindow (Some (mkWindow true (focusable bw) (image bw)))) ;;
      update (emit WindowShow)
  end.

(** [overlayWindow.hide()] *)
Definition window_hide : JS unit :=
  win <- read overlayWindow ;;
  match win with
  | None => throw "TypeError: Cannot read properties of null (reading 'hide')"
  | Some bw =>
      update (set_overlayWindow (Some (mkWindow false (focusable bw) (image bw)))) ;;
      update (emit WindowHide)
  end.

(** ** Strings and paths (Node's [path] and [String.prototype]) *)

Definition chars (s : string) : list ascii := list_ascii_of_string s.
Definition unchars (l : list ascii) : string := string_of_list_ascii l.

(** [toLowerCase] on the ASCII range; other bytes are left alone, which
    cannot create a letter of the allow-list. *)
Definition lower_ascii (c : ascii) : ascii :=
  let n := nat_of_ascii c in
  if ((65 <=? n) && (n <=? 90))%nat then ascii_of_nat (n + 32) else c.

Definition toLowerCase (s : string) : string := unchars (map lower_ascii (chars s)).

(** The scanning state of [path.extname]: [-1] of the library is [None]. *)
Record ExtScan : Type := mkExtScan {
  startDot : option nat;
  startPart : nat;
  endPos : option nat;
  matchedSlash : bool;
  (* 0: nothing seen before the dot, 1: only dots, 2: the library's -1 *)
  preDotState : nat
}.

(** The loop [for (i = path.length - 1; i >= 0; --i)] of [path.extname],
    over the characters paired with their positions, last one first. *)
Fixpoint extname_scan (cs : list (nat * ascii)) (st : ExtScan) : ExtScan :=
  match cs with
  | [] => st
  | (i, c) :: r =>
      if Ascii.eqb c "/"%char then
        if negb (matchedSlash st) then
          mkExtScan (startDot st) (i + 1) (endPos st) (matchedSlash st) (preDotState st)
        else extname_scan r st
      else
        let st1 :=
          match endPos st with
          | None => mkExtScan (startDot st) (startPart st) (Some (i + 1)) false (preDotState st)
          | Some _ => st
          end in
        let st2 :=
          if Ascii.eqb c "."%char then
            match startDot st1 with
            | None => mkExtScan (Some i) (startPart st1) (endPos st1) (matchedSlash st1) (preDotState st1)
            | Some _ =>
                if negb (preDotState st1 =? 1)%nat
                then mkExtScan (startDot st1) (startPart st1) (endPos st1) (matchedSlash st1) 1
                else st1
            end
          else
            match startDot st1 with
            | Some _ => mkExtScan (startDot st1) (startPart st1) (endPos st1) (matchedSlash st1) 2
            | None => st1
            end in
        extname_scan r st2
  end.

(** [path.extname(path)] (POSIX flavour). *)
Definition path_extname (p : string) : string :=
  let cs := chars p in
  let st := extname_scan (rev (combine (seq 0 (length cs)) cs))
                         (mkExtScan None 0 None true 0) in
  match startDot st, endPos st with
  | Some sd, Some e =>
      if ((preDotState st =? 0)
          || ((preDotState st =? 1) && (sd =? e - 1) && (sd =? startPart st + 1)))%nat
      then ""
      else substring sd (e - sd) p
  | _, _ => ""
  end.

(** [path.join(...parts)] for parts that are already normalised (no
    empty, [.] or [..] segments, no trailing separator), as every caller
    in this program supplies them. *)
Definition path_join (parts : list string) : string := String.concat "/" parts.

(** A POSIX path is absolute when it begins with the separator. *)
Definition path_isAbsolute (p : string) : bool :=
  match p with
  | String c _ => Ascii.eqb c "/"%char
  | EmptyString => false
  end.

(** [Buffer.prototype.toString('base64')] *)
Definition base64_alphabet : list ascii :=
  chars "ABCDEFGHIJKLMNOPQRSTUVWXYZabcdefghijklmnopqrstuvwxyz0123456789+/".

Definition base64_digit (n : N) : ascii :=
  nth (N.to_nat (N.modulo n 64)) base64_alphabet "="%char.

Fixpoint base64_encode (bytes : list ascii) : list ascii :=
  match bytes with
  | [] => []
  | [a] =>
      let n := (N_of_ascii a * 65536)%N in
      [base64_digit (n / 262144); base64_digit (n / 4096); "="%char; "="%char]
  | [a; b] =>
      let n := (N_of_ascii a * 65536 + N_of_ascii b * 256)%N in
      [base64_digit (n / 262144); base64_digit (n / 4096);
       base64_digit (n / 64); "="%char]
  | a :: b :: c :: r =>
      let n := (N_of_ascii a * 65536 + N_of_ascii b * 256 + N_of_ascii c)%N in
      base64_digit (n / 262144) :: base64_digit (n / 4096)
        :: base64_digit (n / 64) :: base64_digit n :: base64_encode r
  end.

Definition toBase64 (data : string) : string := unchars (base64_encode (chars data)).

(** ** [src/main.ts] *)

Definition SHORTCUT : string := "Alt+F".

(** The platform's answers to the two calls of [registerMainShortcut]. *)
Record RebindAnswers : Type := mkRebind {
  mainUnregister : UnregisterAnswer;
  mainRegister : RegisterAnswer
}.

(** The platform's answers to the calls one probe tick can make. *)
Record ProbeAnswers : Type := mkProbe {
  probeRegister : RegisterAnswer;
  probeUnregister : UnregisterAnswer;
  rebind : RebindAnswers
}.

Definition imageFiles : list string :=
  [ "0_gHANif08o4nJZF14.png";
    "istockphoto-1257169887-612x612.jpg";
    "istockphoto-1830236402-612x612.jpg";
    "Screenshot 2025-04-23 202743.png" ].

Definition loadImagePaths : JS unit :=
  h <- read host ;;
  let workspaceDir := appPath h in
  console_log ("App path: " ++ workspaceDir) ;;
  update (set_imagePaths
            (map (fun file => path_join [workspaceDir; "images"; file]) imageFiles)) ;;
  console_log "Hard-coded image paths:" ;;
  paths <- read imagePaths ;;
  forEachFrom 0
    (fun imagePath index =>
       exists_ <- fs_existsSync (Some imagePath) ;;
       console_log ("Image " ++ show_nat index ++ ": " ++ imagePath
                      ++ " - Exists: " ++ show_bool exists_))
    paths ;;
  update (set_currentImageIndex 0).

(** The window is built hidden ([show: false]); [setFocusable(false)]
    follows the construction. *)
Definition createOverlayWindow : JS unit :=
  update (set_overlayWindow (Some (mkWindow false true None))) ;;
  win <- read overlayWindow ;;
  match win with
  | Some bw => update (set_overlayWindow (Some (mkWindow (shown bw) false (image bw))))
  | None => ret tt
  end.

Definition getMimeType (filePath : string) : string :=
  let ext := toLowerCase (path_extname filePath) in
  if String.eqb ext ".png" then "image/png"
  else if String.eqb ext ".jpg" then "image/jpeg"
  else if String.eqb ext ".jpeg" then "image/jpeg"
  else if String.eqb ext ".gif" then "image/gif"
  else if String.eqb ext ".webp" then "image/webp"
  else if String.eqb ext ".bmp" then "image/bmp"
  else "image/png".

(** How a template literal prints [imagePaths[i]]. *)
Definition show_element (p : option string) : string :=
  match p with
  | Some s => s
  | None => "undefined"
  end.

Definition isNull {A : Type} (o : option A) : bool :=
  match o with
  | Some _ => false
  | None => true
  end.

Definition showOverlay : JS unit :=
  win <- read overlayWindow ;;
  paths <- read imagePaths ;;
  if isNull win || (length paths =? 0)%nat then
    console_log ("Cannot show overlay: "
                   ++ (if isNull win then "No overlay window" else "No images found"))
  else
    idx <- read currentImageIndex ;;
    let imageToShow := nth_error paths idx in
    console_log ("Showing image index " ++ show_nat idx ++ ": "
                   ++ show_element imageToShow) ;;
    exists_ <- fs_existsSync imageToShow ;;
    match imageToShow, exists_ with
    | Some file, true =>
        console_log "Image file exists when attempting to show" ;;
        tryCatch
          (imageData <- fs_readFileSync file ;;
           let base64Image := toBase64 imageData in
           let mimeType := getMimeType file in
           let dataUrl := "data:" ++ mimeType ++ ";base64," ++ base64Image in
           console_log ("Created data URL for image with mime type: " ++ mimeType) ;;
           webContents_send "show-image" dataUrl)
          (fun err => console_error ("Error processing image: " ++ err))
    | _, _ =>
        console_error ("Image file does not exist: " ++ show_element imageToShow)
    end ;;
    window_show ;;
    update (set_isOverlayVisible true).

(** [n || 1] on a number. *)
Definition orOne (n : nat) : nat := if (n =? 0)%nat then 1 else n.

Definition hideOverlay : JS unit :=
  win <- read overlayWindow ;;
  if isNull win then ret tt
  else
    console_log "Hiding overlay." ;;
    window_hide ;;
    update (set_isOverlayVisible false) ;;
    idx <- read currentImageIndex ;;
    paths <- read imagePaths ;;
    update (set_currentImageIndex ((idx + 1) mod orOne (length paths))) ;;
    idx' <- read currentImageIndex ;;
    console_log ("Next image index will be: " ++ show_nat idx').

Definition registerMainShortcut (a : RebindAnswers) : JS unit :=
  tryCatch
    (globalShortcut_unregister (mainUnregister a))
    (fun e => console_warn ("Error unregistering shortcut: " ++ e)) ;;
  registered <- globalShortcut_register MainShortcutHandler (mainRegister a) ;;
  if registered then console_log (SHORTCUT ++ " registered successfully.")
  else console_error ("Failed to register " ++ SHORTCUT ++ ".").

(** The [try]/[catch] block of the interval callback; its value is what
    the block leaves in the local [keyReleased].  The value returned by
    [globalShortcut.register] is dropped, as in the source. *)
Definition probeKeyReleased (a : ProbeAnswers) : JS bool :=
  tryCatch
    (globalShortcut_register ProbeHandler (probeRegister a) ;;
     (* keyReleased = true *)
     globalShortcut_unregister (probeUnregister a) ;;
     ret true)
    (fun _ => (* keyReleased = false *) ret false).

(** The body of the interval callback of [startKeyCheckTimer]. *)
Definition keyCheckTick (a : ProbeAnswers) : JS unit :=
  keyReleased <- probeKeyReleased a ;;
  visible <- read isOverlayVisible ;;
  if keyReleased && visible then
    hideOverlay ;;
    h <- read keyCheckInterval ;;
    clearInterval h ;;
    update (set_keyCheckInterval None) ;;
    registerMainShortcut (rebind a)
  else if keyReleased then
    h <- read keyCheckInterval ;;
    clearInterval h ;;
    update (set_keyCheckInterval None) ;;
    registerMainShortcut (rebind a)
  else ret tt.

Definition startKeyCheckTimer : JS unit :=
  h <- read keyCheckInterval ;;
  match h with
  | Some _ => clearInterval h ;; update (set_keyCheckInterval None)
  | None => ret tt
  end ;;
  t <- setInterval ;;
  update (set_keyCheckInterval (Some t)).

(** The callback that [registerMainShortcut] registers for SHORTCUT. *)
Definition mainShortcutPressed : JS unit :=
  console_log (SHORTCUT ++ " pressed") ;;
  showOverlay ;;
  startKeyCheckTimer.

(** [app.whenReady().then(...)] *)
Definition whenReady (a : RebindAnswers) : JS unit :=
  loadImagePaths ;;
  createOverlayWindow ;;
  registerMainShortcut a.

(** [app.on('activate', ...)]: no window is left exactly when the overlay
    window was closed. *)
Definition onActivate : JS unit :=
  win <- read overlayWindow ;;
  if isNull win then loadImagePaths ;; createOverlayWindow
  else ret tt.

(** [overlayWindow.on('closed', ...)] *)
Definition onWindowClosed : JS unit := update (set_overlayWindow None).

(** [app.on('will-quit', ...)] *)
Definition onWillQuit : JS unit :=
  globalShortcut_unregisterAll ;;
  h <- read keyCheckInterval ;;
  match h with
  | Some _ => clearInterval h ;; update (set_keyCheckInterval None)
  | None => ret tt
  end.

(** ** The event loop

    Each event runs one callback to completion.  A shortcut press runs
    whatever callback globalShortcut holds for SHORTCUT; an interval fires
    only while it has not been cleared; an exception that escapes a
    callback leaves the mutations made so far in place. *)

Inductive Event : Type :=
| ShortcutFired
| IntervalFired (t : TimerId) (a : ProbeAnswers)
| WindowClosed
| Activate
| WillQuit
| FileSystemChanged (fsys : FileSystem).

Definition handle (e : Event) : JS unit :=
  match e with
  | ShortcutFired =>
      h <- read shortcutTable ;;
      match h with
      | Some MainShortcutHandler => mainShortcutPressed
      | Some ProbeHandler => ret tt
      | None => ret tt
      end
  | IntervalFired t a =>
      ts <- read activeTimers ;;
      if existsb (Nat.eqb t) ts then keyCheckTick a else ret tt
  | WindowClosed => onWindowClosed
  | Activate => onActivate
  | WillQuit => onWillQuit
  | FileSystemChanged fsys => update (set_fileSystem fsys)
  end.

Definition dispatch (e : Event) (w : World) : World := exec (handle e) w.

Definition run (es : list Event) (w : World) : World :=
  fold_left (fun acc e => dispatch e acc) es w.

(** The module as loaded, before [whenReady] resolves. *)
Definition initialWorld (fsys : FileSystem) (h : Host) : World :=
  mkWorld None [] 0 None false None [] 0 fsys h [].

Definition readyWorld (fsys : FileSystem) (h : Host) (a : RebindAnswers) : World :=
  exec (whenReady a) (initialWorld fsys h).

Inductive reachable : World -> Prop :=
| reachable_ready fsys h a : reachable (readyWorld fsys h a)
| reachable_step w e : reachable w -> reachable (dispatch e w).

(** The two state machines of the design, read off the module variables:
    the detector is armed while a poll handle is held, the presenter is
    in its shown state while the visibility flag is set. *)
Inductive DetectorState : Type := IDLE | ARMED.
Inductive PresenterState : Type := HIDDEN | SHOWN.

Definition detectorState (w : World) : DetectorState :=
  match keyCheckInterval w with
  | Some _ => ARMED
  | None => IDLE
  end.

Definition presenterState (w : World) : PresenterState :=
  if isOverlayVisible w then SHOWN else HIDDEN.

Definition pollHandleExists (w : World) : bool := negb (isNull (keyCheckInterval w)).

(** Observations on the trace. *)
Definition isWindowHide (e : Effect) : bool :=
  match e with WindowHide => true | _ => false end.

Definition isWindowShow (e : Effect) : bool :=
  match e with WindowShow => true | _ => false end.

Definition isSetInterval (e : Effect) : bool :=
  match e with SetInterval _ => true | _ => false end.

Definition isClearInterval (e : Effect) : bool :=
  match e with ClearInterval _ => true | _ => false end.

Definition isMainRegister (e : Effect) : bool :=
  match e with ShortcutRegister MainShortcutHandler _ => true | _ => false end.

Definition isWebContentsSend (e : Effect) : bool :=
  match e with WebContentsSend _ _ => true | _ => false end.

Definition isMkdir (e : Effect) : bool :=
  match e with Mkdir _ _ => true | _ => false end.

Definition count (p : Effect -> bool) (l : list Effect) : nat := length (filter p l).

(** What one callback added to the trace. *)
Definition emitted (before after : World) : list Effect :=
  skipn (length (trace before)) (trace after).

(** ** Earlier revision: directory scan and path transport

    The revision of [main.ts] whose catalog is read from the images
    directory and whose overlay is handed the path of the image.  Its
    [hideOverlay], [startKeyCheckTimer], interval callback and
    [registerMainShortcut] are the ones above. *)
Module ScanRevision.

Definition SHORTCUT : string := "Alt+Space".

Definition supportedExtensions : list string :=
  [".png"; ".jpg"; ".jpeg"; ".gif"; ".webp"; ".bmp"].

(** [Array.prototype.includes] on strings. *)
Definition includes (l : list string) (s : string) : bool := existsb (String.eqb s) l.

Definition isSupported (file : string) : bool :=
  includes supportedExtensions (toLowerCase (path_extname file)).

Definition loadImagePaths : JS unit :=
  h <- read host ;;
  let dir := imagesDir h in
  console_log ("Looking for images in: " ++ dir) ;;
  update (set_imagePaths []) ;;
  update (set_currentImageIndex 0) ;;
  dirExists <- fs_existsSync (Some dir) ;;
  if dirExists then
    tryCatch
      (files <- fs_readdirSync dir ;;
       update (set_imagePaths
                 (map (fun file => path_join [dir; file]) (filter isSupported files))) ;;
       paths <- read imagePaths ;;
       console_log ("Found images: "
                      ++ (if (0 <? length paths)%nat then String.concat ", " paths
                          else "None")))
      (fun err => console_error ("Error reading images directory: " ++ err))
  else
    console_warn ("Images directory not found: " ++ dir) ;;
    tryCatch
      (fs_mkdirSync dir ;;
       console_log ("Created images directory: " ++ dir))
      (fun mkdirErr => console_error ("Error creating images directory: " ++ mkdirErr)).

Definition showOverlay : JS unit :=
  win <- read overlayWindow ;;
  paths <- read imagePaths ;;
  if isNull win || (length paths =? 0)%nat then ret tt
  else
    idx <- read currentImageIndex ;;
    let imageToShow := nth_error paths idx in
    console_log ("Showing image index " ++ show_nat idx ++ ": "
                   ++ show_element imageToShow) ;;
    webContents_send "show-image" (show_element imageToShow) ;;
    window_show ;;
    update (set_isOverlayVisible true).

Definition mainShortcutPressed : JS unit :=
  console_log (SHORTCUT ++ " pressed") ;;
  showOverlay ;;
  startKeyCheckTimer.

Definition whenReady (a : RebindAnswers) : JS unit :=
  loadImagePaths ;;
  createOverlayWindow ;;
  registerMainShortcut a.

End ScanRevision.

(** ** Earlier revision: probing with [registerAll]

    The oldest interval callback tests the value that the registration
    call returns instead of catching an exception.  The closure it
    registers would unregister SHORTCUT if the platform ever ran it; the
    callback below is studied on its own, one tick at a time. *)
Module RegisterAllRevision.

(** [globalShortcut.registerAll([SHORTCUT], h)], given the platform's
    answer. *)
Definition globalShortcut_registerAll (h : Handler) (a : RegisterAnswer) : JS bool :=
  globalShortcut_register h a.

(** [registerMainShortcut] of this revision unregisters without a guard. *)
Definition registerMainShortcut (a : RebindAnswers) : JS unit :=
  globalShortcut_unregister (mainUnregister a) ;;
  registered <- globalShortcut_register MainShortcutHandler (mainRegister a) ;;
  if registered then console_log (ScanRevision.SHORTCUT ++ " registered successfully.")
  else console_error ("Failed to register " ++ ScanRevision.SHORTCUT ++ ".").

Definition keyCheckTick (a : ProbeAnswers) : JS unit :=
  isRegisterable <- globalShortcut_registerAll ProbeHandler (probeRegister a) ;;
  visible <- read isOverlayVisible ;;
  if isRegisterable && visible then
    hideOverlay ;;
    h <- read keyCheckInterval ;;
    clearInterval h ;;
    update (set_keyCheckInterval None) ;;
    registerMainShortcut (rebind a)
  else if isRegisterable then
    h <- read keyCheckInterval ;;
    clearInterval h ;;
    update (set_keyCheckInterval None)
  else ret tt.

End RegisterAllRevision.

(** ** The event loop of the scanning revision

    The scanning revision with its own shortcut name in the messages of
    [registerMainShortcut], its scanning [loadImagePaths] at startup and
    on activate, and its path-sending press callback.  [hideOverlay],
    [startKeyCheckTimer], the probe and the will-quit handler have the
    same text as in [main.ts]. *)
Module ScanLoop.

Definition registerMainShortcut (a : RebindAnswers) : JS unit :=
  tryCatch
    (globalShortcut_unregister (mainUnregister a))
    (fun e => console_warn ("Error unregistering shortcut: " ++ e)) ;;
  registered <- globalShortcut_register MainShortcutHandler (mainRegister a) ;;
  if registered then console_log (ScanRevision.SHORTCUT ++ " registered successfully.")
  else console_error ("Failed to register " ++ ScanRevision.SHORTCUT ++ ".").

Definition keyCheckTick (a : ProbeAnswers) : JS unit :=
  keyReleased <- probeKeyReleased a ;;
  visible <- read isOverlayVisible ;;
  if keyReleased && visible then
    hideOverlay ;;
    h <- read keyCheckInterval ;;
    clearInterval h ;;
    update (set_keyCheckInterval None) ;;
    registerMainShortcut (rebind a)
  else if keyReleased then
    h <- read keyCheckInterval ;;
    clearInterval h ;;
    update (set_keyCheckInterval None) ;;
    registerMainShortcut (rebind a)
  else ret tt.

Definition whenReady (a : RebindAnswers) : JS unit :=
  ScanRevision.loadImagePaths ;;
  createOverlayWindow ;;
  registerMainShortcut a.

Definition onActivate : JS unit :=
  win <- read overlayWindow ;;
  if isNull win then ScanRevision.loadImagePaths ;; createOverlayWindow
  else ret tt.

Definition handle (e : Event) : JS unit :=
  match e with
  | ShortcutFired =>
      h <- read shortcutTable ;;
      match h with
      | Some MainShortcutHandler => ScanRevision.mainShortcutPressed
      | Some ProbeHandler => ret tt
      | None => ret tt
      end
  | IntervalFired t a =>
      ts <- read activeTimers ;;
      if existsb (Nat.eqb t) ts then keyCheckTick a else ret tt
  | WindowClosed => onWindowClosed
  | Activate => onActivate
  | WillQuit => onWillQuit
  | FileSystemChanged fsys => update (set_fileSystem fsys)
  end.

Definition dispatch (e : Event) (w : World) : World := exec (handle e) w.

Definition run (es : list Event) (w : World) : World :=
  fold_left (fun acc e => dispatch e acc) es w.

Definition readyWorld (fsys : FileSystem) (h : Host) (a : RebindAnswers) : World :=
  exec (whenReady a) (initialWorld fsys h).

Inductive reachable : World -> Prop :=
| reachable_ready fsys h a : reachable (readyWorld fsys h a)
| reachable_step w e : reachable w -> reachable (dispatch e w).

End ScanLoop.

(** ** Vocabulary of the properties *)

(** What the [try] block computes from the platform's answers: it leaves
    [keyReleased] true exactly when neither call throws. *)
Definition answersRelease (a : ProbeAnswers) : bool :=
  match probeRegister a, probeUnregister a with
  | RegisterThrows _, _ => false
  | _, UnregisterThrows _ => false
  | _, UnregisterDone => true
  end.

(** The value of [keyReleased] after the [try]/[catch] block run in [w]. *)
Definition keyReleasedBy (a : ProbeAnswers) (w : World) : bool :=
  match fst (probeKeyReleased a w) with
  | Normal b => b
  | Thrown _ => false
  end.

(** The invariant of the design document: poll handle, SHOWN and ARMED
    coincide. *)
Definition designInvariant (w : World) : Prop :=
  (pollHandleExists w = true <-> presenterState w = SHOWN)
  /\ (presenterState w = SHOWN <-> detectorState w = ARMED).

(** What the design document promises of a press with an empty catalog:
    nothing is shown and no poll is started. *)
Definition pressIsNoOp (w w' : World) : Prop :=
  presenterState w' = HIDDEN
  /\ overlayWindow w' = overlayWindow w
  /\ currentImageIndex w' = currentImageIndex w
  /\ keyCheckInterval w' = keyCheckInterval w
  /\ activeTimers w' = activeTimers w
  /\ count isSetInterval (emitted w w') = 0.

(** What the press callback does when it cannot show: the presenter's
    variables stay, and the poll is started all the same. *)
Definition pressArmsWithoutShowing (w w' : World) : Prop :=
  overlayWindow w' = overlayWindow w
  /\ isOverlayVisible w' = isOverlayVisible w
  /\ currentImageIndex w' = currentImageIndex w
  /\ imagePaths w' = imagePaths w
  /\ count isWindowShow (emitted w w') = 0
  /\ count isWebContentsSend (emitted w w') = 0
  /\ count isSetInterval (emitted w w') = 1
  /\ keyCheckInterval w' = Some (nextTimerId w)
  /\ In (nextTimerId w) (activeTimers w')
  /\ detectorState w' = ARMED.

(** The window is there, what it displays agrees with the visibility
    flag, the catalog is not empty, and the poll runs exactly while the
    flag is set. *)
Definition overlayConsistent (w : World) : Prop :=
  (exists bw, overlayWindow w = Some bw /\ shown bw = isOverlayVisible w)
  /\ imagePaths w <> []
  /\ pollHandleExists w = isOverlayVisible w.

(** Events other than the closing of the overlay window and the start of
    shutdown. *)
Definition keepsOverlay (e : Event) : bool :=
  match e with
  | WindowClosed => false
  | WillQuit => false
  | _ => true
  end.

(** The ticks of one interval, one per list of answers. *)
Definition ticksOf (t : TimerId) (answers : list ProbeAnswers) : list Event :=
  map (IntervalFired t) answers.

(** How many of the ticks ran their callback and left it with
    [keyReleased] true, that is, how often release was inferred. *)
Fixpoint releasesInferred (t : TimerId) (answers : list ProbeAnswers) (w : World) : nat :=
  match answers with
  | [] => 0
  | a :: r =>
      (if existsb (Nat.eqb t) (activeTimers w) && keyReleasedBy a w then 1 else 0)
      + releasesInferred t r (dispatch (IntervalFired t a) w)
  end.

(** One complete press/release cycle: the press, the ticks of the interval
    it started while the chord is held, and the tick that infers release. *)
Definition pressReleaseCycle (c : list ProbeAnswers * ProbeAnswers) (w : World) : World :=
  let pressed := dispatch ShortcutFired w in
  match keyCheckInterval pressed with
  | Some t => run (ticksOf t (fst c) ++ [IntervalFired t (snd c)]) pressed
  | None => pressed
  end.

Definition runCycles (cs : list (list ProbeAnswers * ProbeAnswers)) (w : World) : World :=
  fold_left (fun acc c => pressReleaseCycle c acc) cs w.

(** A cycle is complete when the chord is held through the first ticks,
    the last tick infers release, and the press binding is restored. *)
Definition completeCycle (c : list ProbeAnswers * ProbeAnswers) : Prop :=
  Forall (fun a => answersRelease a = false) (fst c)
  /\ answersRelease (snd c) = true
  /\ mainRegister (rebind (snd c)) = RegisterTrue.

(** The state between two cycles: window present, nothing shown, no poll,
    press binding installed. *)
Definition idle (w : World) : Prop :=
  overlayWindow w <> None
  /\ isOverlayVisible w = false
  /\ keyCheckInterval w = None
  /\ activeTimers w = []
  /\ shortcutTable w = Some MainShortcutHandler.

(** At most the interval held in [keyCheckInterval] is running. *)
Definition timersTracked (w : World) : Prop :=
  activeTimers w =
  match keyCheckInterval w with
  | Some t => [t]
  | None => []
  end.

(** ** A sample installation

    Concrete input on which the callbacks are run: the first catalog image
    is readable, the second exists but cannot be read, the others are
    missing. *)

Definition sampleFiles : FileSystem :=
  fun p =>
    if String.eqb p "/opt/focusring/images/0_gHANif08o4nJZF14.png"
    then Some (FileNode (Some "Man"))
    else if String.eqb p "/opt/focusring/images/istockphoto-1257169887-612x612.jpg"
    then Some (FileNode None)
    else None.

Definition sampleHost : Host := mkHost "/opt/focusring" "/opt/focusring/images" true.

Definition rebindOk : RebindAnswers := mkRebind UnregisterDone RegisterTrue.

(** The probe's registration throws: the chord is still held. *)
Definition chordHeld : ProbeAnswers :=
  mkProbe (RegisterThrows "Error: shortcut in use") UnregisterDone rebindOk.

(** The probe's registration is accepted: the chord was released. *)
Definition chordReleased : ProbeAnswers := mkProbe RegisterTrue UnregisterDone rebindOk.

(** The probe's registration is refused by return value. *)
Definition chordRefused : ProbeAnswers := mkProbe RegisterFalse UnregisterDone rebindOk.

Definition sampleReady : World := readyWorld sampleFiles sampleHost rebindOk.

(** The scanning revision started where there is no images directory. *)
Definition scanReadyEmpty : World :=
  exec (ScanRevision.whenReady rebindOk) (initialWorld (fun _ => None) sampleHost).

(** The sample after one complete cycle: the current image is the second
    one, which cannot be read. *)
Definition sampleSecondImage : World := runCycles [([], chordReleased)] sampleReady.

(** An images directory with mixed entries, for the scanning revision. *)
Definition sampleDirectory : FileSystem :=
  fun p =>
    if String.eqb p "/opt/focusring/images"
    then Some (DirNode (Some ["a.PNG"; "notes.txt"; "b.jpeg"; ".gif"; "c.WebP";
                              "archive.tar.gz"; "d.bmp.bak"; "e.Jpg"]))
    else None.

(** After one press: overlay shown, interval 0 running. *)
Definition samplePressed : World := dispatch ShortcutFired sampleReady.

(** * Properties *)

Arguments show_nat : simpl never.
Arguments show_bool : simpl never.
Arguments Nat.modulo : simpl never.
Arguments String.append : simpl never.
Arguments String.concat : simpl never.
Arguments toBase64 : simpl never.
Arguments getMimeType : simpl never.
Arguments path_join : simpl never.

(** ** The platform functions on the examples of their documentation *)

Example extname_html : path_extname "index.html" = ".html".
Proof. reflexivity. Qed.

Example extname_last_dot : path_extname "index.coffee.md" = ".md".
Proof. reflexivity. Qed.

Example extname_trailing_dot : path_extname "index." = ".".
Proof. reflexivity. Qed.

Example extname_no_dot : path_extname "index" = "".
Proof. reflexivity. Qed.

Example extname_dotfile : path_extname ".index" = "".
Proof. reflexivity. Qed.

Example extname_dotfile_md : path_extname ".index.md" = ".md".
Proof. reflexivity. Qed.

Example extname_parent : path_extname ".." = "".
Proof. reflexivity. Qed.

Example extname_in_directory : path_extname "/etc/conf.d/report" = "".
Proof. reflexivity. Qed.

Example base64_three : toBase64 "Man" = "TWFu".
Proof. reflexivity. Qed.

Example base64_two : toBase64 "Ma" = "TWE=".
Proof. reflexivity. Qed.

Example base64_one : toBase64 "M" = "TQ==".
Proof. reflexivity. Qed.

Example base64_text : toBase64 "Many hands make light work."
                      = "TWFueSBoYW5kcyBtYWtlIGxpZ2h0IHdvcmsu".
Proof. reflexivity. Qed.

Example mime_upper : getMimeType "/opt/focusring/images/Photo.JPG" = "image/jpeg".
Proof. reflexivity. Qed.

Example mime_default : getMimeType "/opt/focusring/images/notes.txt" = "image/png".
Proof. reflexivity. Qed.

(** Scenario A of the design document on the sample: press, three ticks
    with the chord held, one tick that finds it released, next press. *)
Example scenario_A :
  let w1 := samplePressed in
  let w2 := run (ticksOf 0 [chordHeld; chordHeld; chordHeld; chordReleased]) w1 in
  let w3 := dispatch ShortcutFired w2 in
  (isOverlayVisible w1, currentImageIndex w1, keyCheckInterval w1) = (true, 0, Some 0)
  /\ (isOverlayVisible w2, currentImageIndex w2, keyCheckInterval w2) = (false, 1, None)
  /\ count isWindowHide (emitted w1 w2) = 1
  /\ (isOverlayVisible w3, currentImageIndex w3, keyCheckInterval w3) = (true, 1, Some 1).
Proof. vm_compute. repeat split. Qed.

(** ** Traces *)

Lemma emitted_app (w w' : World) (l : list Effect) :
  trace w' = (trace w ++ l)%list -> emitted w w' = l.
Proof.
  unfold emitted. intros ->.
  induction (trace w) as [|x tr IH]; simpl; auto.
Qed.

Lemma emitted_refl (w : World) : emitted w w = [].
Proof. apply emitted_app. now rewrite app_nil_r. Qed.

Lemma count_app (p : Effect -> bool) (l1 l2 : list Effect) :
  count p (l1 ++ l2) = count p l1 + count p l2.
Proof. unfold count. now rewrite filter_app, length_app. Qed.

(** Runs a callback on a world given by its fields, up to the first test
    on a value that is not known. *)
Ltac js_run :=
  cbv beta iota zeta delta
    -[nth_error show_nat show_bool Nat.modulo Nat.add String.append
      String.concat toBase64 getMimeType path_join app filter count map
      imageFiles ScanRevision.isSupported].

(** Closes a goal [exists l, trace _ = tr ++ l /\ ...] once the callback
    has been run symbolically. *)
Ltac trace_tail :=
  repeat rewrite <- app_assoc;
  eexists; split; [ reflexivity | cbn; repeat split; try reflexivity; try congruence ].

(** ** The probe *)

Lemma probeKeyReleased_value (a : ProbeAnswers) (w : World) :
  fst (probeKeyReleased a w) = Normal (answersRelease a).
Proof.
  destruct a as [pr pu rb]. destruct pr, pu; reflexivity.
Qed.

Lemma keyReleasedBy_answers (a : ProbeAnswers) (w : World) :
  keyReleasedBy a w = answersRelease a.
Proof. unfold keyReleasedBy. now rewrite probeKeyReleased_value. Qed.

(** ** [hideOverlay] *)

Lemma hideOverlay_null (w : World) :
  overlayWindow w = None -> hideOverlay w = (Normal tt, w).
Proof.
  intros H. unfold hideOverlay, bind, read. now rewrite H.
Qed.

Lemma hideOverlay_window (w : World) (bw : BrowserWindow) :
  overlayWindow w = Some bw ->
  let w' := exec hideOverlay w in
  fst (hideOverlay w) = Normal tt
  /\ overlayWindow w' = Some (mkWindow false (focusable bw) (image bw))
  /\ isOverlayVisible w' = false
  /\ currentImageIndex w' = (currentImageIndex w + 1) mod orOne (length (imagePaths w))
  /\ imagePaths w' = imagePaths w
  /\ keyCheckInterval w' = keyCheckInterval w
  /\ activeTimers w' = activeTimers w
  /\ shortcutTable w' = shortcutTable w
  /\ exists l, trace w' = (trace w ++ l)%list /\ count isWindowHide l = 1.
Proof.
  destruct w as [win paths idx kci vis tbl ts nxt fsys hst tr].
  cbn. intros ->. cbn. repeat split. trace_tail.
Qed.

Lemma orOne_max (n : nat) : orOne n = Nat.max n 1.
Proof. unfold orOne. destruct (Nat.eqb_spec n 0); lia. Qed.

(** ** The interval callback, case by case *)

Lemma keyCheckTick_spec (w : World) (a : ProbeAnswers) :
  let w' := exec (keyCheckTick a) w in
  exists l,
    trace w' = (trace w ++ l)%list
    /\ count isWindowShow l = 0
    /\ count isSetInterval l = 0
    /\ imagePaths w' = imagePaths w
    /\ nextTimerId w' = nextTimerId w
    /\ fileSystem w' = fileSystem w
    /\ host w' = host w
    /\ if answersRelease a then
         keyCheckInterval w' = None
         /\ activeTimers w' =
            match keyCheckInterval w with
            | Some t => filter (fun x => negb (Nat.eqb x t)) (activeTimers w)
            | None => activeTimers w
            end
         /\ count isMainRegister l = 1
         /\ (mainRegister (rebind a) = RegisterTrue ->
             shortcutTable w' = Some MainShortcutHandler)
         /\ count isClearInterval l =
            match keyCheckInterval w with
            | Some _ => 1
            | None => 0
            end
         /\ if isOverlayVisible w then
              match overlayWindow w with
              | Some bw =>
                  overlayWindow w' = Some (mkWindow false (focusable bw) (image bw))
                  /\ isOverlayVisible w' = false
                  /\ currentImageIndex w' =
                     (currentImageIndex w + 1) mod orOne (length (imagePaths w))
                  /\ count isWindowHide l = 1
              | None =>
                  overlayWindow w' = None
                  /\ isOverlayVisible w' = true
                  /\ currentImageIndex w' = currentImageIndex w
                  /\ count isWindowHide l = 0
              end
            else
              overlayWindow w' = overlayWindow w
              /\ isOverlayVisible w' = false
              /\ currentImageIndex w' = currentImageIndex w
              /\ count isWindowHide l = 0
       else
         keyCheckInterval w' = keyCheckInterval w
         /\ activeTimers w' = activeTimers w
         /\ overlayWindow w' = overlayWindow w
         /\ isOverlayVisible w' = isOverlayVisible w
         /\ currentImageIndex w' = currentImageIndex w
         /\ count isMainRegister l = 0
         /\ count isClearInterval l = 0
         /\ count isWindowHide l = 0.
Proof.
  destruct w as [win paths idx kci vis tbl ts nxt fsys hst tr].
  destruct a as [pr pu [mu mr]].
  destruct pr, pu, mu, mr, kci, vis, win; cbn; trace_tail.
Qed.

Lemma dispatch_interval (t : TimerId) (a : ProbeAnswers) (w : World) :
  dispatch (IntervalFired t a) w =
  if existsb (Nat.eqb t) (activeTimers w) then exec (keyCheckTick a) w else w.
Proof.
  unfold dispatch, exec, handle, bind, read. cbn.
  now destruct (existsb (Nat.eqb t) (activeTimers w)).
Qed.

Lemma dispatch_interval_cleared (t : TimerId) (a : ProbeAnswers) (w : World) :
  activeTimers w = [] -> dispatch (IntervalFired t a) w = w.
Proof. intros H. rewrite dispatch_interval, H. reflexivity. Qed.

Lemma run_ticks_cleared (t : TimerId) (answers : list ProbeAnswers) (w : World) :
  activeTimers w = [] -> run (ticksOf t answers) w = w.
Proof.
  intros H. induction answers as [|a r IH]; cbn; auto.
  rewrite dispatch_interval_cleared by exact H. exact IH.
Qed.

(** ** The press callback *)

Lemma mainShortcutPressed_spec (w : World) :
  let w' := exec mainShortcutPressed w in
  exists l,
    trace w' = (trace w ++ l)%list
    /\ count isWindowHide l = 0
    /\ count isSetInterval l = 1
    /\ count isMainRegister l = 0
    /\ imagePaths w' = imagePaths w
    /\ currentImageIndex w' = currentImageIndex w
    /\ fileSystem w' = fileSystem w
    /\ host w' = host w
    /\ shortcutTable w' = shortcutTable w
    /\ keyCheckInterval w' = Some (nextTimerId w)
    /\ nextTimerId w' = S (nextTimerId w)
    /\ activeTimers w' =
       nextTimerId w ::
         match keyCheckInterval w with
         | Some t => filter (fun x => negb (Nat.eqb x t)) (activeTimers w)
         | None => activeTimers w
         end
    /\ if isNull (overlayWindow w) || (length (imagePaths w) =? 0)%nat then
         overlayWindow w' = overlayWindow w
         /\ isOverlayVisible w' = isOverlayVisible w
         /\ count isWindowShow l = 0
       else
         isOverlayVisible w' = true
         /\ count isWindowShow l = 1
         /\ exists bw', overlayWindow w' = Some bw' /\ shown bw' = true.
Proof.
  destruct w as [win paths idx kci vis tbl ts nxt fsys hst tr].
  destruct win as [bw|]; [destruct paths as [|p paths]|].
  - destruct kci; js_run; trace_tail.
  - destruct kci; js_run;
      (destruct (nth_error (p :: paths) idx) as [file|] eqn:Hnth; js_run;
       [ destruct (fsys file) as [[[data|]|[entries|]]|] eqn:Hfile; js_run;
         try (destruct (fsys file) as [[[data'|]|[entries'|]]|] eqn:Hfile';
              try discriminate; js_run)
       | ]);
      trace_tail; eexists; split; reflexivity.
  - destruct paths, kci; js_run; trace_tail.
Qed.

Lemma dispatch_shortcut (w : World) :
  dispatch ShortcutFired w =
  match shortcutTable w with
  | Some MainShortcutHandler => exec mainShortcutPressed w
  | _ => w
  end.
Proof.
  unfold dispatch, exec, handle, bind, read. cbn.
  destruct (shortcutTable w) as [[|]|]; reflexivity.
Qed.

(** ** Shutdown *)

Lemma onWillQuit_spec (w : World) :
  let w' := exec onWillQuit w in
  exists l,
    trace w' = (trace w ++ l)%list
    /\ count isWindowHide l = 0
    /\ count isMainRegister l = 0
    /\ count isSetInterval l = 0
    /\ fst (onWillQuit w) = Normal tt
    /\ shortcutTable w' = None
    /\ keyCheckInterval w' = None
    /\ activeTimers w' =
       match keyCheckInterval w with
       | Some t => filter (fun x => negb (Nat.eqb x t)) (activeTimers w)
       | None => activeTimers w
       end
    /\ overlayWindow w' = overlayWindow w
    /\ imagePaths w' = imagePaths w
    /\ currentImageIndex w' = currentImageIndex w
    /\ isOverlayVisible w' = isOverlayVisible w.
Proof.
  destruct w as [win paths idx kci vis tbl ts nxt fsys hst tr].
  destruct kci; cbn; trace_tail.
Qed.

(** ** Startup and reactivation *)

Lemma loadImagePaths_spec (w : World) :
  let w' := exec loadImagePaths w in
  fst (loadImagePaths w) = Normal tt
  /\ imagePaths w' =
     map (fun file => path_join [appPath (host w); "images"; file]) imageFiles
  /\ currentImageIndex w' = 0
  /\ overlayWindow w' = overlayWindow w
  /\ keyCheckInterval w' = keyCheckInterval w
  /\ isOverlayVisible w' = isOverlayVisible w
  /\ shortcutTable w' = shortcutTable w
  /\ activeTimers w' = activeTimers w
  /\ nextTimerId w' = nextTimerId w
  /\ fileSystem w' = fileSystem w
  /\ host w' = host w
  /\ exists l, trace w' = (trace w ++ l)%list
       /\ count isWindowHide l = 0 /\ count isSetInterval l = 0
       /\ count isMkdir l = 0.
Proof.
  destruct w as [win paths idx kci vis tbl ts nxt fsys hst tr].
  cbv beta iota zeta delta -[show_nat show_bool String.append path_join app count].
  repeat split. trace_tail.
Qed.

Lemma onActivate_spec (w : World) :
  let w' := exec onActivate w in
  keyCheckInterval w' = keyCheckInterval w
  /\ isOverlayVisible w' = isOverlayVisible w
  /\ shortcutTable w' = shortcutTable w
  /\ activeTimers w' = activeTimers w
  /\ nextTimerId w' = nextTimerId w
  /\ match overlayWindow w with
     | Some _ => w' = w
     | None =>
         overlayWindow w' = Some (mkWindow false false None)
         /\ currentImageIndex w' = 0
         /\ imagePaths w' =
            map (fun file => path_join [appPath (host w); "images"; file]) imageFiles
     end
  /\ exists l, trace w' = (trace w ++ l)%list
       /\ count isWindowHide l = 0 /\ count isSetInterval l = 0.
Proof.
  destruct w as [win paths idx kci vis tbl ts nxt fsys hst tr].
  destruct win as [bw|];
    cbv beta iota zeta delta -[show_nat show_bool String.append path_join app count].
  - repeat split. exists []. now rewrite app_nil_r.
  - repeat split. trace_tail.
Qed.

Lemma readyWorld_spec (fsys : FileSystem) (h : Host) (a : RebindAnswers) :
  let w := readyWorld fsys h a in
  overlayWindow w = Some (mkWindow false false None)
  /\ imagePaths w = map (fun file => path_join [appPath h; "images"; file]) imageFiles
  /\ currentImageIndex w = 0
  /\ keyCheckInterval w = None
  /\ isOverlayVisible w = false
  /\ activeTimers w = []
  /\ (mainRegister a = RegisterTrue -> shortcutTable w = Some MainShortcutHandler).
Proof.
  destruct a as [mu mr]. destruct mu, mr;
    cbv beta iota zeta delta -[show_nat show_bool String.append path_join app count];
    repeat split; congruence.
Qed.

(** ** The timer table *)

Lemma filter_self (t : TimerId) :
  filter (fun x => negb (Nat.eqb x t)) [t] = [].
Proof. cbn. now rewrite Nat.eqb_refl. Qed.

Lemma dispatch_timersTracked (e : Event) (w : World) :
  timersTracked w -> timersTracked (dispatch e w).
Proof.
  unfold timersTracked. intros H. destruct e as [|t a| | | |fsys].
  - rewrite dispatch_shortcut. destruct (shortcutTable w) as [[|]|]; auto.
    destruct (mainShortcutPressed_spec w) as (l & _ & _ & _ & _ & _ & _ & _ & _ & _ & Hk & _ & Ht & _).
    rewrite Hk, Ht. destruct (keyCheckInterval w); rewrite H; auto using f_equal, filter_self.
  - rewrite dispatch_interval. destruct (existsb _ _); auto.
    destruct (keyCheckTick_spec w a) as (l & _ & _ & _ & _ & _ & _ & _ & Hc).
    destruct (answersRelease a).
    + destruct Hc as (Hk & Ht & _). rewrite Hk, Ht.
      destruct (keyCheckInterval w); rewrite H; auto using filter_self.
    + destruct Hc as (Hk & Ht & _). now rewrite Hk, Ht.
  - exact H.
  - destruct (onActivate_spec w) as (Hk & _ & _ & Ht & _).
    unfold dispatch, handle. now rewrite Hk, Ht.
  - destruct (onWillQuit_spec w) as (l & _ & _ & _ & _ & _ & _ & Hk & Ht & _).
    unfold dispatch, handle. rewrite Hk, Ht.
    destruct (keyCheckInterval w); rewrite H; auto using filter_self.
  - exact H.
Qed.

Lemma reachable_timersTracked (w : World) : reachable w -> timersTracked w.
Proof.
  induction 1 as [fsys h a | w e Hw IH].
  - unfold timersTracked.
    destruct (readyWorld_spec fsys h a) as (_ & _ & _ & Hk & _ & Ht & _).
    now rewrite Hk, Ht.
  - now apply dispatch_timersTracked.
Qed.

Lemma run_app (es1 es2 : list Event) (w : World) :
  run (es1 ++ es2) w = run es2 (run es1 w).
Proof. unfold run. now rewrite fold_left_app. Qed.

Lemma reachable_run (es : list Event) (w : World) :
  reachable w -> reachable (run es w).
Proof.
  revert w. induction es as [|e es IH]; cbn; intros w Hw; auto.
  apply IH. now constructor.
Qed.

(** ** An armed period in which nothing is shown *)

Lemma run_ticks_hidden (t : TimerId) (answers : list ProbeAnswers) (w : World) :
  isOverlayVisible w = false ->
  let w' := run (ticksOf t answers) w in
  currentImageIndex w' = currentImageIndex w
  /\ isOverlayVisible w' = false
  /\ overlayWindow w' = overlayWindow w
  /\ exists l, trace w' = (trace w ++ l)%list /\ count isWindowHide l = 0.
Proof.
  revert w. induction answers as [|a r IH]; intros w Hv.
  - cbn. repeat split; auto. exists []. now rewrite app_nil_r.
  - change (run (ticksOf t (a :: r)) w)
      with (run (ticksOf t r) (dispatch (IntervalFired t a) w)).
    assert (Hstep : let v := dispatch (IntervalFired t a) w in
                    currentImageIndex v = currentImageIndex w
                    /\ isOverlayVisible v = false
                    /\ overlayWindow v = overlayWindow w
                    /\ exists l, trace v = (trace w ++ l)%list
                                 /\ count isWindowHide l = 0).
    { rewrite dispatch_interval. destruct (existsb _ _).
      - destruct (keyCheckTick_spec w a) as (l & Htr & _ & _ & _ & _ & _ & _ & Hc).
        rewrite Hv in Hc. destruct (answersRelease a).
        + destruct Hc as (_ & _ & _ & _ & _ & Hw & Hvis & Hi & Hh).
          cbn. repeat split; auto. now exists l.
        + destruct Hc as (_ & _ & Hw & Hvis & Hi & _ & _ & Hh).
          cbn. repeat split; auto; try congruence. now exists l.
      - cbn. repeat split; auto. exists []. now rewrite app_nil_r. }
    destruct Hstep as (Hi & Hvis & Hw & l1 & Htr1 & Hh1).
    destruct (IH _ Hvis) as (Hi2 & Hvis2 & Hw2 & l2 & Htr2 & Hh2).
    intros w'. subst w'.
    split; [congruence|]. split; [exact Hvis2|]. split; [congruence|].
    exists (l1 ++ l2)%list. split.
    + rewrite Htr2, Htr1. now rewrite app_assoc.
    + rewrite count_app. lia.
Qed.

(** ** [hideOverlay] without a window *)

(** C10: when [overlayWindow] is null, [hideOverlay] returns at once and
    leaves every variable, in particular the visibility flag and the
    rotation index, as it was.  Moreover no callback of the program moves
    the index except together with a [hide()] of an existing window (the
    reload on activate puts it back to 0). *)
Theorem hideOverlay_without_window (w : World) :
  overlayWindow w = None ->
  hideOverlay w = (Normal tt, w)
  /\ isOverlayVisible (exec hideOverlay w) = isOverlayVisible w
  /\ currentImageIndex (exec hideOverlay w) = currentImageIndex w
  /\ forall (e : Event) (v : World),
       currentImageIndex (dispatch e v) <> currentImageIndex v ->
       (e = Activate /\ overlayWindow v = None /\ currentImageIndex (dispatch e v) = 0)
       \/ (exists bw,
             overlayWindow v = Some bw
             /\ count isWindowHide (emitted v (dispatch e v)) = 1
             /\ currentImageIndex (dispatch e v) =
                (currentImageIndex v + 1) mod orOne (length (imagePaths v))).
Proof.
  intros Hnull.
  pose proof (hideOverlay_null w Hnull) as Hrun.
  split; [exact Hrun|]. unfold exec. rewrite Hrun. cbn [snd].
  split; [reflexivity|]. split; [reflexivity|].
  intros e v Hchange. destruct e as [|t a| | | |fsys].
  - exfalso. apply Hchange. rewrite dispatch_shortcut.
    destruct (shortcutTable v) as [[|]|]; auto.
    now destruct (mainShortcutPressed_spec v) as (l & _ & _ & _ & _ & _ & Hi & _).
  - right. rewrite dispatch_interval in *.
    destruct (existsb _ _); [|now elim Hchange].
    destruct (keyCheckTick_spec v a) as (l & Htr & _ & _ & _ & _ & _ & _ & Hc).
    rewrite (emitted_app _ _ _ Htr).
    destruct (answersRelease a).
    + destruct Hc as (_ & _ & _ & _ & _ & Hc).
      destruct (isOverlayVisible v).
      * destruct (overlayWindow v) as [bw|].
        -- exists bw. destruct Hc as (_ & _ & Hi & Hh). auto.
        -- destruct Hc as (_ & _ & Hi & _). now elim Hchange.
      * destruct Hc as (_ & _ & Hi & _). now elim Hchange.
    + destruct Hc as (_ & _ & _ & _ & Hi & _). now elim Hchange.
  - now elim Hchange.
  - left. destruct (onActivate_spec v) as (_ & _ & _ & _ & _ & Hw & _).
    unfold dispatch, handle in *.
    destruct (overlayWindow v).
    + rewrite Hw in Hchange. now elim Hchange.
    + destruct Hw as (_ & Hi & _). auto.
  - exfalso. apply Hchange.
    destruct (onWillQuit_spec v) as (l & _ & _ & _ & _ & _ & _ & _ & _ & _ & _ & Hi & _).
    exact Hi.
  - now elim Hchange.
Qed.

Lemma hideOverlay_without_window_witness :
  hideOverlay (initialWorld sampleFiles sampleHost)
  = (Normal tt, initialWorld sampleFiles sampleHost).
Proof.
  apply (hideOverlay_without_window (initialWorld sampleFiles sampleHost)).
  reflexivity.
Defined.

(** ** Release inferred while nothing is shown *)

(** C9: a tick that infers release while [isOverlayVisible] is false is
    the probe followed by the clean-up only (no [hideOverlay] in between):
    the poll is cancelled, [registerMainShortcut] runs, no [hide()]
    happens, and the rotation index, the visibility flag and the window
    are as before.  Hence no run of ticks that starts with the flag false
    advances the rotation. *)
Theorem release_while_hidden (w : World) (a : ProbeAnswers) :
  isOverlayVisible w = false ->
  keyReleasedBy a w = true ->
  let w' := exec (keyCheckTick a) w in
  w' = exec (h <- read keyCheckInterval ;;
             clearInterval h ;;
             update (set_keyCheckInterval None) ;;
             registerMainShortcut (rebind a))
            (exec (probeKeyReleased a) w)
  /\ keyCheckInterval w' = None
  /\ (forall t, keyCheckInterval w = Some t -> ~ In t (activeTimers w'))
  /\ count isMainRegister (emitted w w') = 1
  /\ (mainRegister (rebind a) = RegisterTrue ->
      shortcutTable w' = Some MainShortcutHandler)
  /\ count isWindowHide (emitted w w') = 0
  /\ currentImageIndex w' = currentImageIndex w
  /\ isOverlayVisible w' = false
  /\ overlayWindow w' = overlayWindow w
  /\ forall (t : TimerId) (answers : list ProbeAnswers),
       let v := run (ticksOf t answers) w in
       currentImageIndex v = currentImageIndex w
       /\ isOverlayVisible v = false
       /\ count isWindowHide (emitted w v) = 0.
Proof.
  intros Hvis Hrel w'. rewrite keyReleasedBy_answers in Hrel.
  destruct (keyCheckTick_spec w a) as (l & Htr & _ & _ & _ & _ & _ & _ & Hc).
  fold w' in Htr, Hc. rewrite Hrel, Hvis in Hc.
  destruct Hc as (Hk & Ht & Hm & Hs & _ & Hw & Hv & Hi & Hh).
  rewrite (emitted_app _ _ _ Htr).
  split.
  { subst w'. clear - Hvis Hrel.
    destruct w as [win paths idx kci vis tbl ts nxt fsys hst tr].
    cbn in Hvis. subst vis.
    destruct a as [pr pu [mu mr]].
    destruct pr, pu; try discriminate Hrel; destruct mu, mr, kci; reflexivity. }
  repeat split; auto.
  - intros t Hkt. rewrite Ht, Hkt. intros Hin.
    apply filter_In in Hin. destruct Hin as [_ Hin].
    now rewrite Nat.eqb_refl in Hin.
  - now destruct (run_ticks_hidden t answers w Hvis) as (Hi2 & _).
  - now destruct (run_ticks_hidden t answers w Hvis) as (_ & Hv2 & _).
  - destruct (run_ticks_hidden t answers w Hvis) as (_ & _ & _ & l2 & Htr2 & Hh2).
    now rewrite (emitted_app _ _ _ Htr2).
Qed.

(** A press with the window closed starts the poll with nothing shown;
    the tick that then infers release leaves index 0 and the flag false. *)
Lemma release_while_hidden_witness :
  let w := run [WindowClosed; ShortcutFired] sampleReady in
  let w' := exec (keyCheckTick chordReleased) w in
  keyCheckInterval w = Some 0
  /\ keyCheckInterval w' = None
  /\ currentImageIndex w' = 0
  /\ isOverlayVisible w' = false.
Proof.
  intros w w'.
  pose proof (release_while_hidden w chordReleased eq_refl eq_refl)
    as (_ & Hk & _ & _ & _ & _ & Hi & Hv & _).
  split; [reflexivity|]. split; [exact Hk|]. split; [exact Hi|exact Hv].
Defined.

(** ** Shutdown while armed *)

(** C8: when will-quit runs in a reachable state with a poll outstanding,
    the handler completes within the callback, clears that interval, leaves
    no interval running and no chord binding registered, hides nothing and
    moves neither the index nor the visibility flag; afterwards no interval
    tick and no shortcut press changes the state any more. *)
Theorem quit_while_armed (w : World) (t : TimerId) :
  reachable w ->
  keyCheckInterval w = Some t ->
  let w' := dispatch WillQuit w in
  fst (handle WillQuit w) = Normal tt
  /\ detectorState w' = IDLE
  /\ activeTimers w' = []
  /\ In (ClearInterval t) (emitted w w')
  /\ In ShortcutUnregisterAll (emitted w w')
  /\ shortcutTable w' = None
  /\ count isWindowHide (emitted w w') = 0
  /\ count isMainRegister (emitted w w') = 0
  /\ currentImageIndex w' = currentImageIndex w
  /\ isOverlayVisible w' = isOverlayVisible w
  /\ (forall t' a, dispatch (IntervalFired t' a) w' = w')
  /\ dispatch ShortcutFired w' = w'.
Proof.
  intros Hreach Hk w'.
  pose proof (reachable_timersTracked w Hreach) as Htt.
  unfold timersTracked in Htt. rewrite Hk in Htt.
  destruct (onWillQuit_spec w)
    as (l & Htr & Hh & Hm & _ & Hn & Hs & Hk' & Ht' & _ & _ & Hi & Hv).
  change (exec onWillQuit w) with w' in *.
  rewrite Hk, Htt, filter_self in Ht'.
  rewrite (emitted_app _ _ _ Htr).
  assert (Hl : In (ClearInterval t) l /\ In ShortcutUnregisterAll l).
  { subst w'. clear - Htr Hk.
    destruct w as [win paths idx kci vis tbl ts nxt fsys hst tr].
    cbn in Hk. subst kci. cbn in Htr.
    rewrite <- app_assoc in Htr. apply app_inv_head in Htr. subst l.
    cbn. auto. }
  destruct Hl as [Hl1 Hl2].
  repeat split; auto.
  - unfold detectorState. now rewrite Hk'.
  - intros t' a. now apply dispatch_interval_cleared.
  - rewrite dispatch_shortcut. now rewrite Hs.
Qed.

Lemma quit_while_armed_witness :
  let w' := dispatch WillQuit samplePressed in
  detectorState samplePressed = ARMED
  /\ detectorState w' = IDLE
  /\ shortcutTable w' = None
  /\ dispatch (IntervalFired 0 chordReleased) w' = w'.
Proof.
  intros w'.
  assert (Hr : reachable samplePressed)
    by exact (reachable_step _ ShortcutFired
                (reachable_ready sampleFiles sampleHost rebindOk)).
  pose proof (quit_while_armed samplePressed 0 Hr eq_refl)
    as (_ & Hd & _ & _ & _ & Hs & _ & _ & _ & _ & Ht & _).
  split; [reflexivity|]. split; [exact Hd|]. split; [exact Hs|apply Ht].
Defined.

(** ** One armed period *)

Lemma existsb_timer (t : TimerId) : existsb (Nat.eqb t) [t] = true.
Proof. cbn. now rewrite Nat.eqb_refl. Qed.

(** The ticks of the running interval, up to and including the first one
    that infers release; the later ones no longer run. *)
Lemma run_ticks_armed (t : TimerId) (answers : list ProbeAnswers) (w : World) :
  keyCheckInterval w = Some t ->
  activeTimers w = [t] ->
  let w' := run (ticksOf t answers) w in
  exists l,
    trace w' = (trace w ++ l)%list
    /\ count isWindowShow l = 0
    /\ count isSetInterval l = 0
    /\ imagePaths w' = imagePaths w
    /\ nextTimerId w' = nextTimerId w
    /\ if existsb answersRelease answers then
         keyCheckInterval w' = None
         /\ activeTimers w' = []
         /\ count isMainRegister l = 1
         /\ count isClearInterval l = 1
         /\ if isOverlayVisible w then
              match overlayWindow w with
              | Some bw =>
                  overlayWindow w' = Some (mkWindow false (focusable bw) (image bw))
                  /\ isOverlayVisible w' = false
                  /\ currentImageIndex w' =
                     (currentImageIndex w + 1) mod orOne (length (imagePaths w))
                  /\ count isWindowHide l = 1
              | None =>
                  overlayWindow w' = None
                  /\ isOverlayVisible w' = true
                  /\ currentImageIndex w' = currentImageIndex w
                  /\ count isWindowHide l = 0
              end
            else
              overlayWindow w' = overlayWindow w
              /\ isOverlayVisible w' = false
              /\ currentImageIndex w' = currentImageIndex w
              /\ count isWindowHide l = 0
       else
         keyCheckInterval w' = Some t
         /\ activeTimers w' = [t]
         /\ overlayWindow w' = overlayWindow w
         /\ isOverlayVisible w' = isOverlayVisible w
         /\ currentImageIndex w' = currentImageIndex w
         /\ count isMainRegister l = 0
         /\ count isClearInterval l = 0
         /\ count isWindowHide l = 0.
Proof.
  revert w. induction answers as [|a r IH]; intros w Hk Ht w'.
  - exists []. subst w'. cbn. rewrite app_nil_r. repeat split; auto.
  - subst w'.
    change (run (ticksOf t (a :: r)) w)
      with (run (ticksOf t r) (dispatch (IntervalFired t a) w)).
    rewrite dispatch_interval, Ht, existsb_timer.
    destruct (keyCheckTick_spec w a)
      as (l & Htr & Hsh & Hsi & Hp & Hn & _ & _ & Hc).
    cbn [existsb]. destruct (answersRelease a); cbn [orb].
    + destruct Hc as (Hk1 & Ht1 & Hm & _ & Hcl & Hc).
      rewrite Hk, Ht, filter_self in Ht1. rewrite Hk in Hcl.
      rewrite (run_ticks_cleared t r _ Ht1).
      exists l. repeat split; auto.
    + destruct Hc as (Hk1 & Ht1 & Hw & Hv & Hi & Hm & Hcl & Hh).
      rewrite Hk in Hk1. rewrite Ht in Ht1.
      destruct (IH _ Hk1 Ht1) as (l2 & Htr2 & Hsh2 & Hsi2 & Hp2 & Hn2 & Hc2).
      exists (l ++ l2)%list.
      rewrite Hv, Hw, Hi, Hp in Hc2.
      split; [rewrite Htr2, Htr; now rewrite app_assoc|].
      rewrite !count_app, Hsh, Hsi, Hm, Hcl, Hh, Hsh2, Hsi2. cbn [Nat.add].
      split; [reflexivity|]. split; [reflexivity|].
      split; [congruence|]. split; [congruence|].
      exact Hc2.
Qed.

Lemma releasesInferred_cleared (t : TimerId) (answers : list ProbeAnswers) (w : World) :
  activeTimers w = [] -> releasesInferred t answers w = 0.
Proof.
  intros H. induction answers as [|a r IH]; cbn -[dispatch]; auto.
  rewrite H. cbn -[dispatch]. rewrite dispatch_interval_cleared by exact H. exact IH.
Qed.

Lemma releasesInferred_armed (t : TimerId) (answers : list ProbeAnswers) (w : World) :
  keyCheckInterval w = Some t ->
  activeTimers w = [t] ->
  releasesInferred t answers w = if existsb answersRelease answers then 1 else 0.
Proof.
  revert w. induction answers as [|a r IH]; intros w Hk Ht; auto.
  cbn [releasesInferred existsb].
  rewrite Ht, existsb_timer, keyReleasedBy_answers, dispatch_interval, Ht, existsb_timer.
  destruct (keyCheckTick_spec w a) as (l & _ & _ & _ & _ & _ & _ & _ & Hc).
  destruct (answersRelease a); cbn [andb orb].
  - destruct Hc as (_ & Ht1 & _).
    rewrite Hk, Ht, filter_self in Ht1.
    now rewrite (releasesInferred_cleared t r _ Ht1).
  - destruct Hc as (Hk1 & Ht1 & _).
    rewrite Hk in Hk1. rewrite Ht in Ht1.
    now rewrite (IH _ Hk1 Ht1).
Qed.

(** After the overlay window was closed a press still arms the poll, and
    nothing is shown.  The tick that then finds the chord released infers
    the one release of that armed period and takes the branch that only
    cleans up: [hideOverlay] is not called and nothing is hidden. *)
Lemma armed_period_without_hide :
  ~ (forall (w : World) (t : TimerId) (answers : list ProbeAnswers),
       reachable w ->
       keyCheckInterval w = Some t ->
       activeTimers w = [t] ->
       existsb answersRelease answers = true ->
       releasesInferred t answers w = 1
       /\ count isWindowHide (emitted w (run (ticksOf t answers) w)) = 1).
Proof.
  intros H.
  pose proof (H (run [WindowClosed; ShortcutFired] sampleReady) 0 [chordReleased]
                (reachable_run [WindowClosed; ShortcutFired] sampleReady
                   (reachable_ready sampleFiles sampleHost rebindOk))
                eq_refl eq_refl eq_refl) as [_ E].
  vm_compute in E. discriminate E.
Qed.

(** C4 (amended): during one armed period (the interval [t] of
    [keyCheckInterval] is the one running), whatever the ticks find,
    release is inferred at most once and [hide()] happens at most once.
    As soon as some tick finds the chord released, release is inferred
    exactly once, its clean-up (clearing the interval, restoring the press
    binding) runs exactly once, and the interval is gone so that every
    further tick of it does nothing.  What that release does to the
    overlay depends on the state in which the period began: with the
    flag set and the window present the window is hidden exactly once,
    the flag is cleared and the index advances by one step; with the flag
    set and the window gone [hideOverlay] returns at once, so nothing is
    hidden and flag and index stay; with the flag not set [hideOverlay] is
    not called, so nothing is hidden and window, flag and index stay.
    While no tick finds the chord released, no release is inferred, nothing
    is hidden and the period goes on. *)
Theorem single_release_per_armed_period
  (w : World) (t : TimerId) (answers : list ProbeAnswers) :
  keyCheckInterval w = Some t ->
  activeTimers w = [t] ->
  let w' := run (ticksOf t answers) w in
  releasesInferred t answers w <= 1
  /\ count isWindowHide (emitted w w') <= 1
  /\ (existsb answersRelease answers = true ->
      releasesInferred t answers w = 1
      /\ count isClearInterval (emitted w w') = 1
      /\ count isMainRegister (emitted w w') = 1
      /\ detectorState w' = IDLE
      /\ activeTimers w' = []
      /\ (forall more, run (ticksOf t more) w' = w'
                       /\ releasesInferred t more w' = 0)
      /\ (isOverlayVisible w = true ->
          overlayWindow w <> None ->
          count isWindowHide (emitted w w') = 1
          /\ isOverlayVisible w' = false
          /\ currentImageIndex w' =
             (currentImageIndex w + 1) mod orOne (length (imagePaths w)))
      /\ (isOverlayVisible w = true ->
          overlayWindow w = None ->
          count isWindowHide (emitted w w') = 0
          /\ overlayWindow w' = None
          /\ isOverlayVisible w' = true
          /\ currentImageIndex w' = currentImageIndex w)
      /\ (isOverlayVisible w = false ->
          count isWindowHide (emitted w w') = 0
          /\ overlayWindow w' = overlayWindow w
          /\ isOverlayVisible w' = false
          /\ currentImageIndex w' = currentImageIndex w))
  /\ (existsb answersRelease answers = false ->
      releasesInferred t answers w = 0
      /\ count isWindowHide (emitted w w') = 0
      /\ count isClearInterval (emitted w w') = 0
      /\ count isMainRegister (emitted w w') = 0
      /\ detectorState w' = ARMED
      /\ activeTimers w' = [t]
      /\ overlayWindow w' = overlayWindow w
      /\ isOverlayVisible w' = isOverlayVisible w
      /\ currentImageIndex w' = currentImageIndex w).
Proof.
  intros Hk Ht w'.
  pose proof (releasesInferred_armed t answers w Hk Ht) as Hr.
  destruct (run_ticks_armed t answers w Hk Ht) as (l & Htr & _ & _ & _ & _ & Hc).
  fold w' in Htr, Hc. rewrite (emitted_app _ _ _ Htr).
  destruct (existsb answersRelease answers).
  - destruct Hc as (Hk' & Ht' & Hm & Hcl & Hc).
    assert (Hh : count isWindowHide l <= 1).
    { destruct (isOverlayVisible w); [destruct (overlayWindow w)|];
        destruct Hc as (_ & _ & _ & Hh); lia. }
    split; [lia|]. split; [exact Hh|]. split; [|discriminate].
    intros _.
    split; [exact Hr|]. split; [exact Hcl|]. split; [exact Hm|].
    split; [unfold detectorState; now rewrite Hk'|]. split; [exact Ht'|].
    split.
    { intros more. split; [now apply run_ticks_cleared|now apply releasesInferred_cleared]. }
    split; [|split].
    + intros Hv Hw. rewrite Hv in Hc.
      destruct (overlayWindow w); [|contradiction]. tauto.
    + intros Hv Hw. rewrite Hv, Hw in Hc. tauto.
    + intros Hv. rewrite Hv in Hc. tauto.
  - destruct Hc as (Hk' & Ht' & Hw' & Hv' & Hi' & Hm & Hcl & Hh).
    split; [lia|]. split; [lia|]. split; [discriminate|].
    intros _.
    split; [exact Hr|]. split; [exact Hh|]. split; [exact Hcl|]. split; [exact Hm|].
    split; [unfold detectorState; now rewrite Hk'|]. tauto.
Qed.

(** Scenario A of the design: held three times, then released, then two
    stray answers. *)
Lemma single_release_per_armed_period_witness :
  let answers := [chordHeld; chordHeld; chordHeld; chordReleased; chordReleased; chordHeld] in
  let w' := run (ticksOf 0 answers) samplePressed in
  releasesInferred 0 answers samplePressed = 1
  /\ count isWindowHide (emitted samplePressed w') = 1
  /\ currentImageIndex w' = 1.
Proof.
  intros answers w'.
  pose proof (single_release_per_armed_period samplePressed 0 answers eq_refl eq_refl)
    as (_ & _ & H & _).
  destruct (H eq_refl) as (Hr & _ & _ & _ & _ & _ & Hs & _).
  destruct (Hs eq_refl) as (Hh & _ & Hi); [discriminate|].
  split; [exact Hr|]. split; [exact Hh|exact Hi].
Defined.

(** ** Rotation *)

Lemma holds_no_release (answers : list ProbeAnswers) :
  Forall (fun a => answersRelease a = false) answers ->
  existsb answersRelease answers = false.
Proof.
  induction 1 as [|a r Ha _ IH]; cbn; auto. now rewrite Ha, IH.
Qed.

(** One complete cycle from the idle state moves the index one step and
    ends in the idle state. *)
Lemma pressReleaseCycle_spec (c : list ProbeAnswers * ProbeAnswers) (w : World) :
  idle w ->
  imagePaths w <> [] ->
  completeCycle c ->
  let w' := pressReleaseCycle c w in
  idle w'
  /\ imagePaths w' = imagePaths w
  /\ currentImageIndex w' = (currentImageIndex w + 1) mod length (imagePaths w).
Proof.
  intros (Hwin & Hvis & Hk & Ht & Hs) Hp (Hholds & Hrel & Hreg).
  unfold pressReleaseCycle. rewrite dispatch_shortcut, Hs.
  destruct (mainShortcutPressed_spec w)
    as (l & _ & _ & _ & _ & Hp1 & Hi1 & _ & _ & _ & Hk1 & _ & Ht1 & Hc).
  set (w1 := exec mainShortcutPressed w) in *.
  rewrite Hk, Ht in Ht1.
  assert (Hguard : isNull (overlayWindow w) || (length (imagePaths w) =? 0)%nat = false).
  { destruct (overlayWindow w); [|contradiction].
    destruct (imagePaths w); [contradiction|reflexivity]. }
  rewrite Hguard in Hc. destruct Hc as (Hv1 & _ & bw1 & Hw1 & _).
  cbv zeta. rewrite Hk1, run_app.
  destruct (run_ticks_armed (nextTimerId w) (fst c) w1 Hk1 Ht1)
    as (l2 & _ & _ & _ & Hp2 & _ & Hc2).
  set (w2 := run (ticksOf (nextTimerId w) (fst c)) w1) in *.
  rewrite (holds_no_release _ Hholds) in Hc2.
  destruct Hc2 as (Hk2 & Ht2 & Hw2 & Hv2 & Hi2 & _).
  change (run [IntervalFired (nextTimerId w) (snd c)] w2)
    with (dispatch (IntervalFired (nextTimerId w) (snd c)) w2).
  rewrite dispatch_interval, Ht2, existsb_timer.
  destruct (keyCheckTick_spec w2 (snd c)) as (l3 & _ & _ & _ & Hp3 & _ & _ & _ & Hc3).
  rewrite Hrel, Hv2, Hv1, Hw2, Hw1, Hk2, Ht2, filter_self in Hc3.
  destruct Hc3 as (Hk3 & Ht3 & _ & Hs3 & _ & Hw3 & Hv3 & Hi3 & _).
  split.
  - unfold idle. rewrite Hw3. repeat split; auto. discriminate.
  - split; [congruence|].
    rewrite Hi3, Hi2, Hi1, Hp2, Hp1.
    unfold orOne. destruct (imagePaths w); [contradiction|reflexivity].
Qed.

Lemma runCycles_index (cs : list (list ProbeAnswers * ProbeAnswers)) (w : World) :
  idle w ->
  imagePaths w <> [] ->
  Forall completeCycle cs ->
  idle (runCycles cs w)
  /\ imagePaths (runCycles cs w) = imagePaths w
  /\ currentImageIndex (runCycles cs w) =
     (currentImageIndex w + length cs) mod length (imagePaths w)
     \/ (cs = [] /\ runCycles cs w = w).
Proof.
  intros Hidle Hp Hcs. revert w Hidle Hp.
  induction Hcs as [|c cs Hc _ IH]; intros w Hidle Hp.
  - right. split; reflexivity.
  - left.
    destruct (pressReleaseCycle_spec c w Hidle Hp Hc) as (Hidle1 & Hp1 & Hi1).
    change (runCycles (c :: cs) w) with (runCycles cs (pressReleaseCycle c w)).
    assert (Hp1' : imagePaths (pressReleaseCycle c w) <> []) by (now rewrite Hp1).
    destruct (IH _ Hidle1 Hp1') as [(Hidle2 & Hp2 & Hi2) | (-> & ->)].
    + split; [exact Hidle2|]. split; [congruence|].
      rewrite Hi2, Hp1, Hi1. cbn [length].
      rewrite Nat.Div0.add_mod_idemp_l. f_equal. lia.
    + cbn [runCycles fold_left length]. split; [exact Hidle1|]. split; [exact Hp1|].
      rewrite Hi1. reflexivity.
Qed.

(** A release inferred while nothing is shown does not move the index:
    after the overlay window was closed, a press arms the poll, and the
    tick that finds the chord released leaves the index at 0 although the
    catalog holds four images. *)
Lemma release_without_advance :
  ~ (forall (w : World) (t : TimerId) (a : ProbeAnswers),
       reachable w ->
       In t (activeTimers w) ->
       keyReleasedBy a w = true ->
       currentImageIndex (dispatch (IntervalFired t a) w) =
       (currentImageIndex w + 1) mod Nat.max (length (imagePaths w)) 1).
Proof.
  intros H.
  pose proof (H (run [WindowClosed; ShortcutFired] sampleReady) 0 chordReleased
                (reachable_run [WindowClosed; ShortcutFired] sampleReady
                   (reachable_ready sampleFiles sampleHost rebindOk))
                (or_introl eq_refl) eq_refl) as E.
  vm_compute in E. discriminate E.
Qed.

(** C5 (amended): from the idle state with index 0 and a catalog of
    [K > 0] images, [N] complete press/release cycles leave the index at
    [N mod K].  [hideOverlay] on an existing window sets
    [index = (index + 1) mod max(len(paths), 1)], and so does every tick
    that infers release while the overlay is shown (flag set, window
    present); with an empty catalog the index stays 0.  A tick that infers
    release while the flag is not set, or after the window is gone, leaves
    the index where it was. *)
Theorem rotation_after_cycles
  (w : World) (cs : list (list ProbeAnswers * ProbeAnswers)) :
  idle w ->
  0 < length (imagePaths w) ->
  currentImageIndex w = 0 ->
  Forall completeCycle cs ->
  currentImageIndex (runCycles cs w) = length cs mod length (imagePaths w)
  /\ (forall v bw,
        overlayWindow v = Some bw ->
        currentImageIndex (exec hideOverlay v) =
        (currentImageIndex v + 1) mod Nat.max (length (imagePaths v)) 1)
  /\ (forall v a bw,
        keyReleasedBy a v = true ->
        isOverlayVisible v = true ->
        overlayWindow v = Some bw ->
        currentImageIndex (exec (keyCheckTick a) v) =
        (currentImageIndex v + 1) mod Nat.max (length (imagePaths v)) 1)
  /\ (forall v,
        imagePaths v = [] ->
        currentImageIndex v = 0 ->
        currentImageIndex (exec hideOverlay v) = 0)
  /\ (forall v a,
        keyReleasedBy a v = true ->
        isOverlayVisible v = false ->
        currentImageIndex (exec (keyCheckTick a) v) = currentImageIndex v)
  /\ (forall v a,
        keyReleasedBy a v = true ->
        overlayWindow v = None ->
        currentImageIndex (exec (keyCheckTick a) v) = currentImageIndex v)
  /\ (forall v a,
        keyReleasedBy a v = false ->
        currentImageIndex (exec (keyCheckTick a) v) = currentImageIndex v).
Proof.
  intros Hidle HK Hi0 Hcs.
  assert (Hp : imagePaths w <> []) by (destruct (imagePaths w); [cbn in HK; lia|discriminate]).
  split; [|split; [|split; [|split; [|split; [|split]]]]].
  - destruct (runCycles_index cs w Hidle Hp Hcs) as [(_ & _ & Hi) | (-> & ->)].
    + now rewrite Hi, Hi0.
    + rewrite Hi0. cbn [length]. now rewrite Nat.Div0.mod_0_l.
  - intros v bw Hw.
    destruct (hideOverlay_window v bw Hw) as (_ & _ & _ & Hi & _).
    now rewrite Hi, orOne_max.
  - intros v a bw Hrel Hv Hw. rewrite keyReleasedBy_answers in Hrel.
    destruct (keyCheckTick_spec v a) as (l & _ & _ & _ & _ & _ & _ & _ & Hc).
    rewrite Hrel, Hv, Hw in Hc.
    destruct Hc as (_ & _ & _ & _ & _ & _ & _ & Hi & _).
    now rewrite Hi, orOne_max.
  - intros v Hempty Hv0.
    destruct (overlayWindow v) as [bw|] eqn:Hw.
    + destruct (hideOverlay_window v bw Hw) as (_ & _ & _ & Hi & _).
      rewrite Hi, Hempty. reflexivity.
    + unfold exec. now rewrite (hideOverlay_null v Hw).
  - intros v a Hrel Hv. rewrite keyReleasedBy_answers in Hrel.
    destruct (keyCheckTick_spec v a) as (l & _ & _ & _ & _ & _ & _ & _ & Hc).
    rewrite Hrel, Hv in Hc.
    destruct Hc as (_ & _ & _ & _ & _ & _ & _ & Hi & _). exact Hi.
  - intros v a Hrel Hw. rewrite keyReleasedBy_answers in Hrel.
    destruct (keyCheckTick_spec v a) as (l & _ & _ & _ & _ & _ & _ & _ & Hc).
    rewrite Hrel, Hw in Hc.
    destruct (isOverlayVisible v);
      destruct Hc as (_ & _ & _ & _ & _ & _ & _ & Hi & _); exact Hi.
  - intros v a Hrel. rewrite keyReleasedBy_answers in Hrel.
    destruct (keyCheckTick_spec v a) as (l & _ & _ & _ & _ & _ & _ & _ & Hc).
    rewrite Hrel in Hc.
    destruct Hc as (_ & _ & _ & _ & Hi & _). exact Hi.
Qed.

(** Six cycles over the four catalog images: the index is 6 mod 4. *)
Lemma rotation_after_cycles_witness :
  currentImageIndex
    (runCycles [ ([chordHeld; chordHeld], chordReleased); ([], chordReleased);
                 ([chordHeld], chordReleased); ([], chordReleased);
                 ([], chordReleased); ([chordHeld], chordReleased) ]
               sampleReady) = 2.
Proof.
  refine (proj1 (rotation_after_cycles sampleReady _ _ _ eq_refl _)).
  - unfold idle. repeat split; discriminate.
  - cbn. lia.
  - repeat constructor.
Defined.

(** ** Showing an image that cannot be read *)

Lemma showOverlay_unreadable (w : World) (bw : BrowserWindow) (file e : string) :
  overlayWindow w = Some bw ->
  nth_error (imagePaths w) (currentImageIndex w) = Some file ->
  fst (fs_existsSync (Some file) w) = Normal true ->
  fst (fs_readFileSync file w) = Thrown e ->
  showOverlay w =
  (Normal tt,
   set_isOverlayVisible true
     (emit WindowShow
        (set_overlayWindow (Some (mkWindow true (focusable bw) (image bw)))
           (emit (Console LError ("Error processing image: " ++ e))
              (emit (Console LLog "Image file exists when attempting to show")
                 (emit (Console LLog ("Showing image index "
                                        ++ show_nat (currentImageIndex w) ++ ": " ++ file))
                    w)))))).
Proof.
  destruct w as [win paths idx kci vis tbl ts nxt fsys hst tr].
  cbn [overlayWindow imagePaths currentImageIndex].
  intros -> Hnth Hex Hrd.
  destruct paths as [|p paths]; [destruct idx; discriminate Hnth|].
  revert Hex Hrd. js_run. intros Hex Hrd.
  destruct (nth_error (p :: paths) idx) as [file'|]; [|discriminate Hnth].
  injection Hnth as ->. js_run.
  destruct (fsys file) as [[[data|]|[entries|]]|] eqn:Hfile;
    try discriminate Hex; try discriminate Hrd; js_run;
    (destruct (fsys file) as [[[data'|]|[entries'|]]|] eqn:Hfile';
     try discriminate Hfile; js_run);
    injection Hrd as <-; reflexivity.
Qed.

(** C7: when the current image exists but reading it throws, [showOverlay]
    completes normally: the error is logged, nothing is sent to the
    renderer, the window is shown and [isOverlayVisible] becomes true.
    The press callback goes on to start the poll, and the variables that
    drive the press/release cycle are the same whatever the file system
    holds. *)
Theorem show_survives_delivery_error
  (w : World) (bw : BrowserWindow) (file e : string) :
  overlayWindow w = Some bw ->
  nth_error (imagePaths w) (currentImageIndex w) = Some file ->
  fst (fs_existsSync (Some file) w) = Normal true ->
  fst (fs_readFileSync file w) = Thrown e ->
  let w' := exec showOverlay w in
  fst (showOverlay w) = Normal tt
  /\ In (Console LError ("Error processing image: " ++ e)) (emitted w w')
  /\ (forall c p, ~ In (WebContentsSend c p) (emitted w w'))
  /\ count isWindowShow (emitted w w') = 1
  /\ overlayWindow w' = Some (mkWindow true (focusable bw) (image bw))
  /\ isOverlayVisible w' = true
  /\ (let v := exec mainShortcutPressed w in
      isOverlayVisible v = true
      /\ keyCheckInterval v = Some (nextTimerId w)
      /\ In (nextTimerId w) (activeTimers v))
  /\ (forall fsys,
        let v := exec mainShortcutPressed w in
        let u := exec mainShortcutPressed (set_fileSystem fsys w) in
        isOverlayVisible u = isOverlayVisible v
        /\ keyCheckInterval u = keyCheckInterval v
        /\ activeTimers u = activeTimers v
        /\ currentImageIndex u = currentImageIndex v
        /\ imagePaths u = imagePaths v
        /\ shortcutTable u = shortcutTable v).
Proof.
  intros Hw Hnth Hex Hrd w'.
  pose proof (showOverlay_unreadable w bw file e Hw Hnth Hex Hrd) as Hrun.
  assert (Hguard : forall fsys,
             isNull (overlayWindow (set_fileSystem fsys w))
             || (length (imagePaths (set_fileSystem fsys w)) =? 0)%nat = false).
  { intros fsys. cbn [set_fileSystem overlayWindow imagePaths]. rewrite Hw.
    destruct (imagePaths w); [destruct (currentImageIndex w); discriminate Hnth|reflexivity]. }
  assert (Hpress : forall fsys,
             let u := exec mainShortcutPressed (set_fileSystem fsys w) in
             isOverlayVisible u = true
             /\ keyCheckInterval u = Some (nextTimerId w)
             /\ activeTimers u =
                nextTimerId w ::
                  match keyCheckInterval w with
                  | Some t => filter (fun x => negb (Nat.eqb x t)) (activeTimers w)
                  | None => activeTimers w
                  end
             /\ currentImageIndex u = currentImageIndex w
             /\ imagePaths u = imagePaths w
             /\ shortcutTable u = shortcutTable w).
  { intros fsys.
    destruct (mainShortcutPressed_spec (set_fileSystem fsys w))
      as (l & _ & _ & _ & _ & Hp & Hi & _ & _ & Hs & Hk & _ & Ht & Hc).
    rewrite Hguard in Hc. destruct Hc as (Hv & _).
    cbv zeta. repeat split; auto. }
  assert (Hsame : set_fileSystem (fileSystem w) w = w) by (destruct w; reflexivity).
  pose proof (Hpress (fileSystem w)) as Hv. rewrite Hsame in Hv.
  destruct Hv as (Hv1 & Hv2 & Hv3 & Hv4 & Hv5 & Hv6).
  assert (Htr : trace w' =
                (trace w ++
                 [ Console LLog ("Showing image index "
                                   ++ show_nat (currentImageIndex w) ++ ": " ++ file);
                   Console LLog "Image file exists when attempting to show";
                   Console LError ("Error processing image: " ++ e);
                   WindowShow ])%list).
  { subst w'. unfold exec. rewrite Hrun. clear. destruct w. cbn.
    now repeat rewrite <- app_assoc. }
  rewrite (emitted_app _ _ _ Htr).
  subst w'. unfold exec. rewrite Hrun. cbn [fst snd].
  repeat split.
  - cbn. auto.
  - intros c p Hin. cbn in Hin. intuition discriminate.
  - fold (exec mainShortcutPressed w). exact Hv1.
  - fold (exec mainShortcutPressed w). exact Hv2.
  - fold (exec mainShortcutPressed w). rewrite Hv3. now left.
  - destruct (Hpress fsys) as (Hu & _). unfold exec in Hu, Hv1. congruence.
  - destruct (Hpress fsys) as (_ & Hu & _). unfold exec in Hu, Hv2. congruence.
  - destruct (Hpress fsys) as (_ & _ & Hu & _). unfold exec in Hu, Hv3. congruence.
  - destruct (Hpress fsys) as (_ & _ & _ & Hu & _). unfold exec in Hu, Hv4. congruence.
  - destruct (Hpress fsys) as (_ & _ & _ & _ & Hu & _). unfold exec in Hu, Hv5. congruence.
  - destruct (Hpress fsys) as (_ & _ & _ & _ & _ & Hu). unfold exec in Hu, Hv6. congruence.
Qed.

Lemma show_survives_delivery_error_witness :
  let w' := exec showOverlay sampleSecondImage in
  fst (showOverlay sampleSecondImage) = Normal tt
  /\ isOverlayVisible w' = true
  /\ count isWindowShow (emitted sampleSecondImage w') = 1.
Proof.
  intros w'.
  pose proof (show_survives_delivery_error sampleSecondImage
                (mkWindow false false (Some "data:image/png;base64,TWFu"))
                "/opt/focusring/images/istockphoto-1257169887-612x612.jpg"
                "EACCES: permission denied, open '/opt/focusring/images/istockphoto-1257169887-612x612.jpg'"
                eq_refl eq_refl eq_refl eq_refl)
    as (Hn & _ & _ & Hc & _ & Hv & _).
  split; [exact Hn|]. split; [exact Hv|exact Hc].
Defined.

(** ** A press that cannot show *)

Lemma mainShortcutPressed_empty (w : World) :
  imagePaths w = [] ->
  pressArmsWithoutShowing w (exec mainShortcutPressed w).
Proof.
  destruct w as [win paths idx kci vis tbl ts nxt fsys hst tr].
  cbn [imagePaths]. intros ->. unfold pressArmsWithoutShowing.
  destruct win, kci;
    (erewrite emitted_app by (js_run; repeat rewrite <- app_assoc; reflexivity));
    js_run; cbn; repeat split; auto.
Qed.

Lemma scan_mainShortcutPressed_empty (w : World) :
  imagePaths w = [] ->
  pressArmsWithoutShowing w (exec ScanRevision.mainShortcutPressed w).
Proof.
  destruct w as [win paths idx kci vis tbl ts nxt fsys hst tr].
  cbn [imagePaths]. intros ->. unfold pressArmsWithoutShowing.
  destruct win, kci;
    (erewrite emitted_app by (js_run; repeat rewrite <- app_assoc; reflexivity));
    js_run; cbn; repeat split; auto.
Qed.

(** The promise that a press with an empty catalog starts no poll fails
    in the scanning revision started without an images directory: the
    catalog is empty, the binding is installed, and the press leaves
    interval 0 running. *)
Lemma empty_catalog_press_is_not_a_no_op :
  ~ (forall w : World,
       imagePaths w = [] ->
       pressIsNoOp w (exec ScanRevision.mainShortcutPressed w)).
Proof.
  intros H.
  destruct (H scanReadyEmpty eq_refl) as (_ & _ & _ & Hk & _).
  discriminate Hk.
Qed.

(** C2 (amended): for a press delivered while the catalog is empty, in
    [main.ts] as in the scanning revision, nothing is shown or sent, and
    the window, the visibility flag, the index and the catalog stay as
    they were; the callback still calls [startKeyCheckTimer], so a poll is
    started and the detector is armed. *)
Theorem press_with_empty_catalog (w : World) :
  imagePaths w = [] ->
  pressArmsWithoutShowing w (exec mainShortcutPressed w)
  /\ pressArmsWithoutShowing w (exec ScanRevision.mainShortcutPressed w)
  /\ (isOverlayVisible w = false ->
      presenterState (exec mainShortcutPressed w) = HIDDEN
      /\ presenterState (exec ScanRevision.mainShortcutPressed w) = HIDDEN).
Proof.
  intros Hempty.
  pose proof (mainShortcutPressed_empty w Hempty) as H1.
  pose proof (scan_mainShortcutPressed_empty w Hempty) as H2.
  split; [exact H1|]. split; [exact H2|].
  intros Hv. unfold presenterState.
  destruct H1 as (_ & Hv1 & _). destruct H2 as (_ & Hv2 & _).
  now rewrite Hv1, Hv2, Hv.
Qed.

Lemma press_with_empty_catalog_witness :
  pressArmsWithoutShowing scanReadyEmpty
    (exec ScanRevision.mainShortcutPressed scanReadyEmpty).
Proof.
  apply (press_with_empty_catalog scanReadyEmpty). reflexivity.
Defined.

(** ** The invariant of the design *)

Lemma overlayConsistent_design (w : World) :
  overlayConsistent w -> designInvariant w.
Proof.
  intros (_ & _ & H).
  unfold designInvariant, presenterState, detectorState, pollHandleExists in *.
  destruct (keyCheckInterval w), (isOverlayVisible w); cbn in *; try discriminate H;
    repeat split; intros; try reflexivity; discriminate.
Qed.

Lemma dispatch_overlayConsistent (e : Event) (w : World) :
  keepsOverlay e = true ->
  overlayConsistent w ->
  overlayConsistent (dispatch e w).
Proof.
  intros He ((bw & Hw & Hshown) & Hp & Hpoll).
  unfold overlayConsistent, pollHandleExists in *.
  destruct e as [|t a| | | |fsys]; try discriminate He.
  - rewrite dispatch_shortcut.
    destruct (shortcutTable w) as [[|]|];
      [ | split; [eauto|now split] | split; [eauto|now split] ].
    destruct (mainShortcutPressed_spec w)
      as (l & _ & _ & _ & _ & Hp1 & _ & _ & _ & _ & Hk1 & _ & _ & Hc).
    rewrite Hw in Hc. destruct (imagePaths w) as [|p ps] eqn:Hps; [contradiction|].
    cbn in Hc. destruct Hc as (Hv1 & _ & bw1 & Hw1 & Hs1).
    rewrite Hk1, Hv1, Hp1. split; [|split; [discriminate|reflexivity]].
    exists bw1. split; auto.
  - rewrite dispatch_interval. destruct (existsb _ _); [|split; [eauto|auto]].
    destruct (keyCheckTick_spec w a) as (l & _ & _ & _ & Hp1 & _ & _ & _ & Hc).
    rewrite Hp1. destruct (answersRelease a).
    + destruct Hc as (Hk1 & _ & _ & _ & _ & Hc). rewrite Hk1.
      destruct (isOverlayVisible w).
      * rewrite Hw in Hc. destruct Hc as (Hw1 & Hv1 & _).
        rewrite Hw1, Hv1. split; [eauto|auto].
      * destruct Hc as (Hw1 & Hv1 & _).
        rewrite Hw1, Hv1, Hw. split; [eauto|auto].
    + destruct Hc as (Hk1 & _ & Hw1 & Hv1 & _).
      rewrite Hk1, Hw1, Hv1, Hw. split; [eauto|auto].
  - destruct (onActivate_spec w) as (_ & _ & _ & _ & _ & Hsame & _).
    rewrite Hw in Hsame. unfold dispatch, handle. rewrite Hsame.
    split; [eauto|auto].
  - destruct w; cbn in *. split; [eauto|auto].
Qed.

Lemma readyWorld_overlayConsistent (fsys : FileSystem) (h : Host) (a : RebindAnswers) :
  overlayConsistent (readyWorld fsys h a).
Proof.
  destruct (readyWorld_spec fsys h a) as (Hw & Hp & _ & Hk & Hv & _).
  unfold overlayConsistent, pollHandleExists. rewrite Hw, Hp, Hk, Hv.
  split; [eauto|]. split; [discriminate|reflexivity].
Qed.

(** The design invariant is not an invariant of the program: closing the
    overlay window and pressing the chord leaves a poll running while the
    presenter is hidden. *)
Lemma design_invariant_not_preserved :
  ~ (forall w : World, reachable w -> designInvariant w).
Proof.
  intros H.
  assert (Hr : reachable (run [WindowClosed; ShortcutFired] sampleReady)).
  { apply reachable_run.
    exact (reachable_ready sampleFiles sampleHost rebindOk). }
  destruct (H _ Hr) as [[Hshown _] _].
  specialize (Hshown eq_refl). discriminate Hshown.
Qed.

(** The other direction fails too: when the window is closed while the
    overlay is shown, the tick that infers release cancels the poll but
    [hideOverlay] returns before clearing the flag. *)
Lemma shown_without_poll_reachable :
  let w := run [ShortcutFired; WindowClosed; IntervalFired 0 chordReleased] sampleReady in
  reachable w
  /\ presenterState w = SHOWN
  /\ pollHandleExists w = false
  /\ detectorState w = IDLE.
Proof.
  split.
  - apply reachable_run.
    exact (reachable_ready sampleFiles sampleHost rebindOk).
  - vm_compute. repeat split.
Qed.

(** C1 (amended): in every state reached from startup by events other
    than the closing of the overlay window and will-quit, a poll handle
    exists iff the presenter is SHOWN iff the detector is ARMED, and the
    window is on screen exactly when the visibility flag is set. *)
Theorem invariant_while_overlay_open
  (fsys : FileSystem) (h : Host) (a : RebindAnswers) (es : list Event) :
  forallb keepsOverlay es = true ->
  let w := run es (readyWorld fsys h a) in
  designInvariant w
  /\ exists bw, overlayWindow w = Some bw /\ shown bw = isOverlayVisible w.
Proof.
  intros Hes w.
  assert (Hc : overlayConsistent w).
  { subst w. generalize (readyWorld_overlayConsistent fsys h a).
    generalize (readyWorld fsys h a). clear - Hes.
    induction es as [|e es IH]; intros v Hv; [exact Hv|].
    cbn in Hes. apply andb_prop in Hes. destruct Hes as [He Hes].
    change (run (e :: es) v) with (run es (dispatch e v)).
    apply IH; auto. now apply dispatch_overlayConsistent. }
  split; [now apply overlayConsistent_design|]. now destruct Hc.
Qed.

Lemma invariant_while_overlay_open_witness :
  designInvariant
    (run [ShortcutFired; IntervalFired 0 chordHeld; IntervalFired 0 chordReleased;
          Activate; ShortcutFired]
         sampleReady).
Proof.
  apply (invariant_while_overlay_open sampleFiles sampleHost rebindOk
           [ShortcutFired; IntervalFired 0 chordHeld; IntervalFired 0 chordReleased;
            Activate; ShortcutFired]).
  reflexivity.
Defined.

(** ** The probe and the value returned by [register] *)

Lemma keyCheckTick_probe_throws (w : World) (e : string)
  (pu : UnregisterAnswer) (rb : RebindAnswers) :
  exec (keyCheckTick (mkProbe (RegisterThrows e) pu rb)) w
  = emit (ShortcutRegister ProbeHandler (RegisterThrows e)) w.
Proof. destruct w. reflexivity. Qed.

Lemma keyCheckTick_probe_accepted (w : World) (rb : RebindAnswers) :
  let w' := exec (keyCheckTick (mkProbe RegisterTrue UnregisterDone rb)) w in
  keyCheckInterval w' = None
  /\ (forall t, keyCheckInterval w = Some t -> ~ In t (activeTimers w'))
  /\ firstn 2 (emitted w w') =
     [ShortcutRegister ProbeHandler RegisterTrue; ShortcutUnregister UnregisterDone]
  /\ count isMainRegister (emitted w w') = 1.
Proof.
  intros w'.
  destruct (keyCheckTick_spec w (mkProbe RegisterTrue UnregisterDone rb))
    as (l & Htr & _ & _ & _ & _ & _ & _ & Hc).
  fold w' in Htr, Hc. cbn in Hc. destruct Hc as (Hk & Ht & Hm & _).
  rewrite (emitted_app _ _ _ Htr).
  repeat split; auto.
  - intros t Hkt. rewrite Ht, Hkt. intros Hin.
    apply filter_In in Hin. destruct Hin as [_ Hin].
    now rewrite Nat.eqb_refl in Hin.
  - subst w'. clear - Htr.
    destruct w as [win paths idx kci vis tbl ts nxt fsys hst tr].
    destruct rb as [mu mr].
    destruct mu, mr, kci, vis, win; cbn in Htr;
      repeat rewrite <- app_assoc in Htr; apply app_inv_head in Htr;
      subst l; reflexivity.
Qed.

(** A probe whose registration is refused by return value is treated
    exactly as one whose registration is accepted. *)
Lemma keyCheckTick_refused_as_accepted (w : World)
  (pu : UnregisterAnswer) (rb : RebindAnswers) :
  let r := exec (keyCheckTick (mkProbe RegisterFalse pu rb)) w in
  let a := exec (keyCheckTick (mkProbe RegisterTrue pu rb)) w in
  keyCheckInterval r = keyCheckInterval a
  /\ activeTimers r = activeTimers a
  /\ isOverlayVisible r = isOverlayVisible a
  /\ currentImageIndex r = currentImageIndex a
  /\ overlayWindow r = overlayWindow a.
Proof.
  destruct w as [win paths idx kci vis tbl ts nxt fsys hst tr].
  destruct rb as [mu mr].
  destruct pu, mu, mr, kci, vis, win; cbn; repeat split.
Qed.

(** C3, at the input on which the program departs from it: the overlay is
    shown and the poll runs; the probe's [register] returns [false].  The
    callback drops that value, takes the chord for released, hides the
    overlay, advances the index and cancels the poll.  When the same call
    throws, the detector stays armed; the interval callback of the
    [registerAll] revision, which tests the returned value, stays armed on
    [false] as well. *)
Theorem refused_probe_infers_release :
  let w := samplePressed in
  let w' := dispatch (IntervalFired 0 chordRefused) w in
  detectorState w = ARMED
  /\ presenterState w = SHOWN
  /\ probeRegister chordRefused = RegisterFalse
  /\ keyReleasedBy chordRefused w = true
  /\ detectorState w' = IDLE
  /\ presenterState w' = HIDDEN
  /\ currentImageIndex w = 0
  /\ currentImageIndex w' = 1
  /\ count isWindowHide (emitted w w') = 1
  /\ count isClearInterval (emitted w w') = 1
  /\ detectorState (dispatch (IntervalFired 0 chordHeld) w) = ARMED
  /\ presenterState (dispatch (IntervalFired 0 chordHeld) w) = SHOWN
  /\ detectorState (exec (RegisterAllRevision.keyCheckTick chordRefused) w) = ARMED.
Proof.
  vm_compute. repeat split.
Qed.

(** ** The image catalog *)

Lemma lower_ascii_slash (c : ascii) :
  Ascii.eqb (lower_ascii c) "/"%char = Ascii.eqb c "/"%char.
Proof.
  destruct c as [[] [] [] [] [] [] [] []]; reflexivity.
Qed.

Lemma lower_ascii_dot (c : ascii) :
  Ascii.eqb (lower_ascii c) "."%char = Ascii.eqb c "."%char.
Proof.
  destruct c as [[] [] [] [] [] [] [] []]; reflexivity.
Qed.

Lemma lower_ascii_idempotent (c : ascii) :
  lower_ascii (lower_ascii c) = lower_ascii c.
Proof.
  destruct c as [[] [] [] [] [] [] [] []]; reflexivity.
Qed.

Lemma toLowerCase_cons (c : ascii) (s : string) :
  toLowerCase (String c s) = String (lower_ascii c) (toLowerCase s).
Proof. reflexivity. Qed.

Lemma chars_toLowerCase (s : string) :
  chars (toLowerCase s) = map lower_ascii (chars s).
Proof.
  unfold toLowerCase, chars, unchars.
  apply list_ascii_of_string_of_list_ascii.
Qed.

Lemma toLowerCase_idempotent (s : string) :
  toLowerCase (toLowerCase s) = toLowerCase s.
Proof.
  induction s as [|c s IH]; [reflexivity|].
  now rewrite !toLowerCase_cons, lower_ascii_idempotent, IH.
Qed.

Lemma substring_toLowerCase (n m : nat) (s : string) :
  substring n m (toLowerCase s) = toLowerCase (substring n m s).
Proof.
  revert n m. induction s as [|c s IH]; intros n m.
  - destruct n, m; reflexivity.
  - rewrite toLowerCase_cons. destruct n as [|n].
    + destruct m as [|m]; [reflexivity|].
      cbn [substring]. now rewrite toLowerCase_cons, IH.
    + cbn [substring]. apply IH.
Qed.

(** The scan of [path.extname] looks at letters only to tell separators
    and dots from the rest. *)
Lemma extname_scan_lower (l : list (nat * ascii)) (st : ExtScan) :
  extname_scan (map (fun p => (fst p, lower_ascii (snd p))) l) st = extname_scan l st.
Proof.
  revert st. induction l as [|[i c] l IH]; intros st; [reflexivity|].
  cbn [map fst snd extname_scan].
  rewrite lower_ascii_slash, lower_ascii_dot.
  destruct (Ascii.eqb c "/"%char).
  - destruct (negb (matchedSlash st)); [reflexivity|apply IH].
  - apply IH.
Qed.

Lemma combine_map_snd {A B C : Type} (f : B -> C) (l : list A) (l' : list B) :
  combine l (map f l') = map (fun p => (fst p, f (snd p))) (combine l l').
Proof.
  revert l'. induction l as [|a l IH]; intros [|b l']; cbn; auto.
  now rewrite IH.
Qed.

Lemma path_extname_toLowerCase (p : string) :
  path_extname (toLowerCase p) = toLowerCase (path_extname p).
Proof.
  unfold path_extname.
  rewrite chars_toLowerCase, length_map, combine_map_snd, <- map_rev, extname_scan_lower.
  destruct (startDot _) as [sd|]; [|reflexivity].
  destruct (endPos _) as [e|]; [|reflexivity].
  destruct (_ || _)%bool; [reflexivity|].
  apply substring_toLowerCase.
Qed.

Lemma isSupported_spec (file : string) :
  ScanRevision.isSupported file = true
  <-> In (toLowerCase (path_extname file))
         [".png"; ".jpg"; ".jpeg"; ".gif"; ".webp"; ".bmp"].
Proof.
  unfold ScanRevision.isSupported, ScanRevision.includes.
  rewrite existsb_exists. split.
  - intros (x & Hin & Heq). apply String.eqb_eq in Heq. now subst.
  - intros Hin. exists (toLowerCase (path_extname file)).
    split; [exact Hin|apply String.eqb_refl].
Qed.

(** The filter is insensitive to the case of the file name. *)
Lemma isSupported_case (f g : string) :
  toLowerCase f = toLowerCase g ->
  ScanRevision.isSupported f = ScanRevision.isSupported g.
Proof.
  intros H. unfold ScanRevision.isSupported.
  now rewrite <- !path_extname_toLowerCase, H.
Qed.

Lemma path_join_absolute (dir file : string) :
  path_isAbsolute dir = true -> path_isAbsolute (path_join [dir; file]) = true.
Proof.
  destruct dir as [|c dir]; [discriminate|]. intros H. exact H.
Qed.

Lemma scan_load_spec (w : World) :
  let dir := imagesDir (host w) in
  let w' := exec ScanRevision.loadImagePaths w in
  fst (ScanRevision.loadImagePaths w) = Normal tt
  /\ currentImageIndex w' = 0
  /\ host w' = host w
  /\ exists l,
       trace w' = (trace w ++ l)%list
       /\ match fileSystem w dir with
          | None =>
              imagePaths w' = []
              /\ if fsWritable (host w) then
                   fileSystem w' =
                   (fun p => if String.eqb p dir then Some (DirNode (Some []))
                             else fileSystem w p)
                   /\ In (Mkdir dir true) l
                 else
                   fileSystem w' = fileSystem w
                   /\ In (Mkdir dir false) l
          | Some (DirNode (Some entries)) =>
              imagePaths w' =
              map (fun file => path_join [dir; file])
                  (filter ScanRevision.isSupported entries)
              /\ fileSystem w' = fileSystem w
              /\ count isMkdir l = 0
          | Some _ =>
              imagePaths w' = []
              /\ fileSystem w' = fileSystem w
              /\ count isMkdir l = 0
          end.
Proof.
  destruct w as [win paths idx kci vis tbl ts nxt fsys hst tr].
  destruct hst as [ap dir wr]. js_run.
  destruct (fsys dir) as [[data|[entries|]]|] eqn:Hdir; js_run.
  - destruct (fsys dir) as [[data'|[entries'|]]|] eqn:Hdir';
      try discriminate Hdir; js_run.
    repeat split. trace_tail.
  - destruct (fsys dir) as [[data'|[entries'|]]|] eqn:Hdir';
      try discriminate Hdir; js_run.
    injection Hdir as <-. repeat split. trace_tail.
  - destruct (fsys dir) as [[data'|[entries'|]]|] eqn:Hdir';
      try discriminate Hdir; js_run.
    repeat split. trace_tail.
  - destruct (fsys dir) as [[data'|[entries'|]]|] eqn:Hdir';
      try discriminate Hdir; js_run.
    destruct wr; js_run; repeat split; trace_tail; auto.
Qed.

(** The catalog of [main.ts] does not come from the directory: with no
    images directory at all it still holds the four hard-coded paths. *)
Lemma hard_coded_catalog_ignores_directory :
  ~ (forall w : World,
       fileSystem w (path_join [appPath (host w); "images"]) = None ->
       imagePaths (exec loadImagePaths w) = []
       /\ fileSystem (exec loadImagePaths w) (path_join [appPath (host w); "images"])
          <> None).
Proof.
  intros H.
  destruct (H (initialWorld (fun _ => None) sampleHost) eq_refl) as [Hp _].
  discriminate Hp.
Qed.

(** C6 (amended): neither [loadImagePaths] fails its caller.  The one of
    the scanning revision, when the images directory is absent, attempts
    to create it and leaves the catalog empty (and where the host permits
    the creation, the directory exists afterwards and loading again finds
    it, changes nothing and again returns the empty catalog); when the
    directory can be listed, the catalog is the entries whose lower-cased
    extension is one of .png .jpg .jpeg .gif .webp .bmp, in listing order,
    each joined to the directory, hence absolute when the directory is;
    the filter does not depend on the case of the name; when the path of
    the directory exists but cannot be listed (a directory that cannot be
    read, or a file), the error is caught, the catalog is empty and
    nothing is created.  The one of [main.ts] returns its four hard-coded names joined to
    [<app path>/images] and neither lists nor creates anything. *)
Theorem catalog_load (w : World) :
  (fst (loadImagePaths w) = Normal tt
   /\ imagePaths (exec loadImagePaths w) =
      map (fun file => path_join [appPath (host w); "images"; file]) imageFiles
   /\ fileSystem (exec loadImagePaths w) = fileSystem w
   /\ count isMkdir (emitted w (exec loadImagePaths w)) = 0)
  /\ (let dir := imagesDir (host w) in
      let w' := exec ScanRevision.loadImagePaths w in
      fst (ScanRevision.loadImagePaths w) = Normal tt
      /\ (fileSystem w dir = None ->
          imagePaths w' = []
          /\ (exists ok, In (Mkdir dir ok) (emitted w w'))
          /\ (fsWritable (host w) = true ->
              fileSystem w' dir = Some (DirNode (Some []))
              /\ imagePaths (exec ScanRevision.loadImagePaths w') = []
              /\ fileSystem (exec ScanRevision.loadImagePaths w') = fileSystem w'))
      /\ (forall entries,
            fileSystem w dir = Some (DirNode (Some entries)) ->
            imagePaths w' =
            map (fun file => path_join [dir; file])
                (filter ScanRevision.isSupported entries)
            /\ (path_isAbsolute dir = true ->
                Forall (fun p => path_isAbsolute p = true) (imagePaths w')))
      /\ (forall file,
            ScanRevision.isSupported file = true
            <-> In (toLowerCase (path_extname file))
                   [".png"; ".jpg"; ".jpeg"; ".gif"; ".webp"; ".bmp"])
      /\ (forall f g,
            toLowerCase f = toLowerCase g ->
            ScanRevision.isSupported f = ScanRevision.isSupported g)
      /\ (fileSystem w dir = Some (DirNode None)
          \/ (exists data, fileSystem w dir = Some (FileNode data)) ->
          imagePaths w' = []
          /\ fileSystem w' = fileSystem w
          /\ count isMkdir (emitted w w') = 0)).
Proof.
  split.
  - destruct (loadImagePaths_spec w)
      as (Hn & Hp & _ & _ & _ & _ & _ & _ & _ & Hf & _ & l & Htr & _ & _ & Hm).
    rewrite (emitted_app _ _ _ Htr). auto.
  - intros dir w'.
    destruct (scan_load_spec w) as (Hn & _ & Hh & l & Htr & Hc).
    fold dir w' in Hn, Hh, Htr, Hc.
    rewrite (emitted_app _ _ _ Htr).
    split; [exact Hn|].
    split; [|split; [|split; [exact isSupported_spec|split; [exact isSupported_case|]]]].
    + intros Habsent. rewrite Habsent in Hc. destruct Hc as (Hp & Hc).
      split; [exact Hp|]. split.
      * destruct (fsWritable (host w)); destruct Hc as (_ & Hin); eauto.
      * intros Hwr. rewrite Hwr in Hc. destruct Hc as (Hfs & _).
        assert (Hdir : fileSystem w' dir = Some (DirNode (Some []))).
        { rewrite Hfs. now rewrite String.eqb_refl. }
        split; [exact Hdir|].
        destruct (scan_load_spec w') as (_ & _ & _ & l2 & _ & Hc2).
        rewrite Hh in Hc2. fold dir in Hc2. rewrite Hdir in Hc2.
        destruct Hc2 as (Hp2 & Hfs2 & _). split; [exact Hp2|exact Hfs2].
    + intros entries Hentries. rewrite Hentries in Hc.
      destruct Hc as (Hp & _). split; [exact Hp|].
      intros Habs. rewrite Hp. apply Forall_map, Forall_forall.
      intros file _. now apply path_join_absolute.
    + intros [Hdir | [data Hdir]]; rewrite Hdir in Hc; exact Hc.
Qed.

Lemma catalog_load_witness :
  imagePaths (exec ScanRevision.loadImagePaths (initialWorld (fun _ => None) sampleHost)) = []
  /\ imagePaths (exec ScanRevision.loadImagePaths (initialWorld sampleDirectory sampleHost))
     = [ "/opt/focusring/images/a.PNG"; "/opt/focusring/images/b.jpeg";
         "/opt/focusring/images/c.WebP"; "/opt/focusring/images/e.Jpg" ].
Proof.
  split.
  - refine (proj1 (proj1 (proj2 (proj2
              (catalog_load (initialWorld (fun _ => None) sampleHost))))
              eq_refl)).
  - refine (proj1 (proj1 (proj2 (proj2 (proj2
              (catalog_load (initialWorld sampleDirectory sampleHost)))))
              _ eq_refl)).
Defined.

(** * Further properties of the code *)

(** ** MIME types *)

(** X1: [getMimeType] looks only at the lower-cased extension: two names
    that differ in case only get the same type. *)
Theorem getMimeType_case_insensitive (f g : string) :
  toLowerCase f = toLowerCase g -> getMimeType f = getMimeType g.
Proof.
  intros H. unfold getMimeType.
  now rewrite <- !path_extname_toLowerCase, H.
Qed.

Lemma getMimeType_case_insensitive_witness :
  getMimeType "/opt/focusring/images/Holiday.JPeG"
  = getMimeType "/OPT/FocusRing/images/holiday.jpeg".
Proof.
  apply (getMimeType_case_insensitive
           "/opt/focusring/images/Holiday.JPeG" "/OPT/FocusRing/images/holiday.jpeg").
  reflexivity.
Defined.

(** X2: [getMimeType] returns one of five types; [.jpg] and [.jpeg] share
    one; and every name that the allow-list of the scanning
    [loadImagePaths] rejects falls to the default [image/png], so the six
    extensions of the allow-list are exactly those the switch names. *)
Theorem getMimeType_range (f : string) :
  In (getMimeType f) ["image/png"; "image/jpeg"; "image/gif"; "image/webp"; "image/bmp"]
  /\ (In (toLowerCase (path_extname f)) [".jpg"; ".jpeg"] -> getMimeType f = "image/jpeg")
  /\ (ScanRevision.isSupported f = false -> getMimeType f = "image/png")
  /\ (getMimeType f <> "image/png" -> ScanRevision.isSupported f = true).
Proof.
  unfold getMimeType, ScanRevision.isSupported, ScanRevision.includes,
    ScanRevision.supportedExtensions.
  cbn [existsb In].
  set (ext := toLowerCase (path_extname f)).
  destruct (String.eqb_spec ext ".png") as [E1|N1];
    [|destruct (String.eqb_spec ext ".jpg") as [E2|N2];
      [|destruct (String.eqb_spec ext ".jpeg") as [E3|N3];
        [|destruct (String.eqb_spec ext ".gif") as [E4|N4];
          [|destruct (String.eqb_spec ext ".webp") as [E5|N5];
            [|destruct (String.eqb_spec ext ".bmp") as [E6|N6]]]]]];
    cbn [orb In]; repeat split; auto 7;
    try discriminate;
    try (intros [H|[H|[]]]; congruence);
    try (intros H; now elim H).
Qed.

Lemma getMimeType_range_witness :
  getMimeType "notes.txt" = "image/png" /\ getMimeType "a.JPG" = "image/jpeg".
Proof.
  split.
  - apply (getMimeType_range "notes.txt"). reflexivity.
  - apply (getMimeType_range "a.JPG"). left. reflexivity.
Defined.

(** ** Invariants of the running program *)

(** X3: in every reachable state at most one interval is running, and an
    interval runs exactly when it is the one held in [keyCheckInterval]:
    [startKeyCheckTimer] clears before it sets, and every clearing also
    resets the variable. *)
Theorem reachable_single_interval (w : World) :
  reachable w ->
  length (activeTimers w) <= 1
  /\ forall t, In t (activeTimers w) <-> keyCheckInterval w = Some t.
Proof.
  intros Hr. pose proof (reachable_timersTracked w Hr) as H.
  unfold timersTracked in H. rewrite H.
  destruct (keyCheckInterval w) as [t0|]; cbn.
  - split; [lia|]. intros t. split.
    + intros [->|[]]. reflexivity.
    + intros E. injection E as ->. now left.
  - split; [lia|]. intros t. split; [intros []|discriminate].
Qed.

(** Two presses in a row (key repeat): only the second interval runs. *)
Lemma reachable_single_interval_witness :
  activeTimers (run [ShortcutFired; ShortcutFired] sampleReady) = [1]
  /\ length (activeTimers (run [ShortcutFired; ShortcutFired] sampleReady)) <= 1.
Proof.
  assert (Hr : reachable (run [ShortcutFired; ShortcutFired] sampleReady))
    by exact (reachable_run _ _ (reachable_ready sampleFiles sampleHost rebindOk)).
  split; [reflexivity|].
  exact (proj1 (reachable_single_interval _ Hr)).
Defined.

Lemma dispatch_catalog (e : Event) (w : World) :
  length (imagePaths w) = 4 ->
  currentImageIndex w < 4 ->
  length (imagePaths (dispatch e w)) = 4 /\ currentImageIndex (dispatch e w) < 4.
Proof.
  intros Hl Hi. destruct e as [|t a| | | |fsys].
  - rewrite dispatch_shortcut. destruct (shortcutTable w) as [[|]|]; auto.
    destruct (mainShortcutPressed_spec w) as (l & _ & _ & _ & _ & Hp & Hi1 & _).
    now rewrite Hp, Hi1.
  - rewrite dispatch_interval. destruct (existsb _ _); auto.
    destruct (keyCheckTick_spec w a) as (l & _ & _ & _ & Hp & _ & _ & _ & Hc).
    rewrite Hp. split; [exact Hl|].
    destruct (answersRelease a).
    + destruct Hc as (_ & _ & _ & _ & _ & Hc).
      destruct (isOverlayVisible w); [destruct (overlayWindow w)|];
        destruct Hc as (_ & _ & Hi1 & _); rewrite Hi1; auto.
      rewrite Hl. apply Nat.mod_upper_bound. discriminate.
    + destruct Hc as (_ & _ & _ & _ & Hi1 & _). now rewrite Hi1.
  - auto.
  - destruct (onActivate_spec w) as (_ & _ & _ & _ & _ & Hw & _).
    unfold dispatch, handle. destruct (overlayWindow w).
    + now rewrite Hw.
    + destruct Hw as (_ & Hi1 & Hp). rewrite Hi1, Hp, length_map. split; [reflexivity|lia].
  - destruct (onWillQuit_spec w) as (l & _ & _ & _ & _ & _ & _ & _ & _ & _ & Hp & Hi1 & _).
    unfold dispatch, handle. now rewrite Hp, Hi1.
  - destruct w; auto.
Qed.

(** X4: in every reachable state of [main.ts] the catalog has its four
    entries and [currentImageIndex] is a valid position in it, so
    [imagePaths[currentImageIndex]] is never [undefined]. *)
Theorem reachable_index_in_range (w : World) :
  reachable w ->
  length (imagePaths w) = 4
  /\ currentImageIndex w < length (imagePaths w)
  /\ exists file, nth_error (imagePaths w) (currentImageIndex w) = Some file.
Proof.
  intros Hr.
  assert (H : length (imagePaths w) = 4 /\ currentImageIndex w < 4).
  { induction Hr as [fsys h a | w e Hw IH].
    - destruct (readyWorld_spec fsys h a) as (_ & Hp & Hi & _).
      rewrite Hp, Hi, length_map. split; [reflexivity|lia].
    - destruct IH as [Hl Hi]. now apply dispatch_catalog. }
  destruct H as [Hl Hi]. split; [exact Hl|]. split; [now rewrite Hl|].
  destruct (nth_error (imagePaths w) (currentImageIndex w)) as [file|] eqn:E; eauto.
  apply nth_error_None in E. lia.
Qed.

Lemma reachable_index_in_range_witness :
  currentImageIndex
    (run [ShortcutFired; IntervalFired 0 chordReleased; WindowClosed; Activate] sampleReady)
  < length (imagePaths
    (run [ShortcutFired; IntervalFired 0 chordReleased; WindowClosed; Activate] sampleReady)).
Proof.
  exact (proj1 (proj2 (reachable_index_in_range _
           (reachable_run
              [ShortcutFired; IntervalFired 0 chordReleased; WindowClosed; Activate] _
              (reachable_ready sampleFiles sampleHost rebindOk))))).
Defined.

Lemma mainShortcutPressed_focusable (w : World) :
  match overlayWindow w, overlayWindow (exec mainShortcutPressed w) with
  | Some bw, Some bw' => focusable bw' = focusable bw
  | None, None => True
  | _, _ => False
  end.
Proof.
  destruct w as [win paths idx kci vis tbl ts nxt fsys hst tr].
  destruct win as [bw|]; [destruct paths as [|p paths]|].
  - destruct kci; js_run; reflexivity.
  - destruct kci; js_run;
      (destruct (nth_error (p :: paths) idx) as [file|] eqn:Hnth; js_run;
       [ destruct (fsys file) as [[[data|]|[entries|]]|] eqn:Hfile; js_run;
         try (destruct (fsys file) as [[[data'|]|[entries'|]]|] eqn:Hfile';
              try discriminate; js_run)
       | ]);
      reflexivity.
  - destruct paths, kci; js_run; exact I.
Qed.

(** X5: the overlay window can never take the focus: in every reachable
    state the window, if there is one, has [focusable] false
    ([setFocusable(false)] at creation; showing, hiding and sending keep
    it). *)
Theorem reachable_window_not_focusable (w : World) (bw : BrowserWindow) :
  reachable w ->
  overlayWindow w = Some bw ->
  focusable bw = false.
Proof.
  intros Hr. revert bw.
  induction Hr as [fsys h a | w e Hw IH]; intros bw Hbw.
  - destruct (readyWorld_spec fsys h a) as (Hwin & _).
    rewrite Hwin in Hbw. now injection Hbw as <-.
  - destruct e as [|t a| | | |fsys].
    + rewrite dispatch_shortcut in Hbw.
      destruct (shortcutTable w) as [[|]|]; auto.
      pose proof (mainShortcutPressed_focusable w) as Hf.
      rewrite Hbw in Hf. destruct (overlayWindow w) as [bw0|]; [|contradiction].
      rewrite Hf. now apply IH.
    + rewrite dispatch_interval in Hbw. destruct (existsb _ _); auto.
      destruct (keyCheckTick_spec w a) as (l & _ & _ & _ & _ & _ & _ & _ & Hc).
      destruct (answersRelease a).
      * destruct Hc as (_ & _ & _ & _ & _ & Hc).
        destruct (isOverlayVisible w).
        -- destruct (overlayWindow w) as [bw0|]; destruct Hc as (Hw1 & _);
             rewrite Hw1 in Hbw; [|discriminate].
           injection Hbw as <-. cbn. now apply IH.
        -- destruct Hc as (Hw1 & _). rewrite Hw1 in Hbw. now apply IH.
      * destruct Hc as (_ & _ & Hw1 & _). rewrite Hw1 in Hbw. now apply IH.
    + discriminate Hbw.
    + destruct (onActivate_spec w) as (_ & _ & _ & _ & _ & Hw1 & _).
      unfold dispatch, handle in Hbw. destruct (overlayWindow w) as [bw0|] eqn:E.
      * rewrite Hw1, E in Hbw. now apply IH.
      * destruct Hw1 as (Hw1 & _). rewrite Hw1 in Hbw. now injection Hbw as <-.
    + destruct (onWillQuit_spec w) as (l & _ & _ & _ & _ & _ & _ & _ & _ & Hw1 & _).
      unfold dispatch, handle in Hbw. rewrite Hw1 in Hbw. now apply IH.
    + apply IH. destruct w; exact Hbw.
Qed.

Lemma reachable_window_not_focusable_witness :
  focusable (mkWindow true false (Some "data:image/png;base64,TWFu")) = false.
Proof.
  exact (reachable_window_not_focusable samplePressed _
           (reachable_step _ ShortcutFired
              (reachable_ready sampleFiles sampleHost rebindOk))
           eq_refl).
Defined.

(** ** Registration, startup and reactivation *)

(** X6: [registerMainShortcut] attempts the registration exactly once
    whatever [unregister] does (a throwing [unregister] is only warned
    about); it fails its caller only if [register] itself throws; the
    press handler is installed exactly when [register] returns true; and
    it touches none of the module variables. *)
Theorem registerMainShortcut_outcome (w : World) (a : RebindAnswers) :
  let w' := exec (registerMainShortcut a) w in
  count isMainRegister (emitted w w') = 1
  /\ (fst (registerMainShortcut a w) = Normal tt
      <-> forall e, mainRegister a <> RegisterThrows e)
  /\ (mainRegister a = RegisterTrue -> shortcutTable w' = Some MainShortcutHandler)
  /\ (mainRegister a <> RegisterTrue ->
      shortcutTable w' =
      match mainUnregister a with
      | UnregisterDone => None
      | UnregisterThrows _ => shortcutTable w
      end)
  /\ (forall e, mainUnregister a = UnregisterThrows e ->
        In (Console LWarn ("Error unregistering shortcut: " ++ e)) (emitted w w'))
  /\ overlayWindow w' = overlayWindow w
  /\ imagePaths w' = imagePaths w
  /\ currentImageIndex w' = currentImageIndex w
  /\ keyCheckInterval w' = keyCheckInterval w
  /\ isOverlayVisible w' = isOverlayVisible w
  /\ activeTimers w' = activeTimers w.
Proof.
  destruct w as [win paths idx kci vis tbl ts nxt fsys hst tr].
  destruct a as [mu mr]. cbv zeta.
  destruct mu as [|e1], mr as [| |e2];
    (erewrite emitted_app by (js_run; repeat rewrite <- app_assoc; reflexivity));
    js_run; cbn;
    repeat split; auto; try discriminate; try congruence;
    try (intros H; exfalso; eapply H; reflexivity);
    try (intros H; now elim H);
    try (intros e E; injection E as <-; auto).
Qed.

(** The platform refuses the registration by return value: nothing is
    installed, nothing is thrown. *)
Lemma registerMainShortcut_outcome_witness :
  let a := mkRebind (UnregisterThrows "gone") RegisterFalse in
  fst (registerMainShortcut a sampleReady) = Normal tt
  /\ shortcutTable (exec (registerMainShortcut a) sampleReady) = Some MainShortcutHandler
  /\ shortcutTable (exec (registerMainShortcut rebindOk) (initialWorld sampleFiles sampleHost))
     = Some MainShortcutHandler.
Proof.
  intros a.
  pose proof (registerMainShortcut_outcome sampleReady a) as (_ & Hn & _ & Hs & _).
  pose proof (registerMainShortcut_outcome (initialWorld sampleFiles sampleHost) rebindOk)
    as (_ & _ & Ht & _).
  split; [apply Hn; discriminate|].
  split; [apply Hs; discriminate|apply Ht; reflexivity].
Defined.

(** X7: startup does not depend on the image files being there (their
    existence is only logged): whatever the file system holds, after
    [whenReady] the catalog is the four hard-coded names under
    [<app path>/images] (absolute when the app path is), the index is 0,
    the window exists, hidden and not focusable, nothing was shown, no
    poll runs, and the press handler is installed exactly when its
    registration returned true. *)
Theorem startup_state (fsys : FileSystem) (h : Host) (a : RebindAnswers) :
  let w := readyWorld fsys h a in
  imagePaths w = map (fun file => path_join [appPath h; "images"; file]) imageFiles
  /\ (path_isAbsolute (appPath h) = true ->
      Forall (fun p => path_isAbsolute p = true) (imagePaths w))
  /\ currentImageIndex w = 0
  /\ overlayWindow w = Some (mkWindow false false None)
  /\ isOverlayVisible w = false
  /\ keyCheckInterval w = None
  /\ activeTimers w = []
  /\ count isWindowShow (trace w) = 0
  /\ fileSystem w = fsys
  /\ (shortcutTable w = Some MainShortcutHandler <-> mainRegister a = RegisterTrue).
Proof.
  intros w.
  assert (Hp : imagePaths w
               = map (fun file => path_join [appPath h; "images"; file]) imageFiles)
    by (now destruct (readyWorld_spec fsys h a) as (_ & Hp & _)).
  split; [exact Hp|]. split.
  { intros Habs. rewrite Hp. apply Forall_map, Forall_forall. intros file _.
    destruct (appPath h) as [|c s]; [discriminate|exact Habs]. }
  subst w. clear Hp. destruct a as [mu mr].
  destruct mu, mr;
    cbv beta iota zeta delta -[show_nat show_bool String.append path_join app];
    repeat split; try discriminate; try congruence.
Qed.

Lemma startup_state_witness :
  Forall (fun p => path_isAbsolute p = true) (imagePaths sampleReady).
Proof.
  exact (proj1 (proj2 (startup_state sampleFiles sampleHost rebindOk)) eq_refl).
Defined.

(** X8: the activate handler does nothing while the overlay window
    exists.  After the window was closed it reloads the catalog, puts the
    index back to 0 and builds a new hidden, unfocusable window; it does
    not register the shortcut again and does not touch the visibility flag
    or the poll. *)
Theorem activate_recreates_closed_window (w : World) :
  (overlayWindow w <> None -> dispatch Activate w = w)
  /\ (overlayWindow w = None ->
      let w' := dispatch Activate w in
      overlayWindow w' = Some (mkWindow false false None)
      /\ imagePaths w' =
         map (fun file => path_join [appPath (host w); "images"; file]) imageFiles
      /\ currentImageIndex w' = 0
      /\ isOverlayVisible w' = isOverlayVisible w
      /\ keyCheckInterval w' = keyCheckInterval w
      /\ activeTimers w' = activeTimers w
      /\ shortcutTable w' = shortcutTable w
      /\ count isMainRegister (emitted w w') = 0
      /\ count isWindowShow (emitted w w') = 0).
Proof.
  destruct w as [win paths idx kci vis tbl ts nxt fsys hst tr].
  destruct win as [bw|]; cbn [overlayWindow]; split.
  - intros _. reflexivity.
  - discriminate.
  - intros H. now elim H.
  - intros _. cbv zeta.
    erewrite emitted_app
      by (cbv beta iota zeta delta -[show_nat show_bool String.append path_join app];
          repeat rewrite <- app_assoc; reflexivity).
    cbv beta iota zeta delta -[show_nat show_bool String.append path_join app count].
    cbn. repeat split.
Qed.

(** Closing the window while the overlay is shown and reactivating: the
    new window is hidden although the flag still says visible. *)
Lemma activate_recreates_closed_window_witness :
  let w := dispatch WindowClosed samplePressed in
  let w' := dispatch Activate w in
  overlayWindow w' = Some (mkWindow false false None)
  /\ isOverlayVisible w' = true
  /\ dispatch Activate w' = w'.
Proof.
  intros w w'.
  pose proof (proj2 (activate_recreates_closed_window w) eq_refl)
    as (Hw & _ & _ & Hv & _).
  split; [exact Hw|]. split; [exact Hv|].
  apply (proj1 (activate_recreates_closed_window w')).
  fold w' in Hw. rewrite Hw. discriminate.
Defined.

(** ** What the overlay is given to display *)

Lemma showOverlay_readable (w : World) (bw : BrowserWindow) (file data : string) :
  overlayWindow w = Some bw ->
  nth_error (imagePaths w) (currentImageIndex w) = Some file ->
  fileSystem w file = Some (FileNode (Some data)) ->
  let url := "data:" ++ getMimeType file ++ ";base64," ++ toBase64 data in
  showOverlay w =
  (Normal tt,
   set_isOverlayVisible true
     (emit WindowShow
        (set_overlayWindow (Some (mkWindow true (focusable bw) (Some url)))
           (emit (WebContentsSend "show-image" url)
              (emit (Console LLog ("Created data URL for image with mime type: "
                                     ++ getMimeType file))
                 (emit (Console LLog "Image file exists when attempting to show")
                    (emit (Console LLog ("Showing image index "
                                           ++ show_nat (currentImageIndex w)
                                           ++ ": " ++ file))
                       w))))))).
Proof.
  destruct w as [win paths idx kci vis tbl ts nxt fsys hst tr].
  cbn [overlayWindow imagePaths currentImageIndex fileSystem].
  intros -> Hnth Hfile.
  destruct paths as [|p paths]; [destruct idx; discriminate Hnth|].
  js_run.
  destruct (nth_error (p :: paths) idx) as [file'|]; [|discriminate Hnth].
  injection Hnth as ->. js_run.
  destruct (fsys file) as [[[data'|]|[entries|]]|] eqn:Hfile';
    try discriminate Hfile; js_run.
  destruct (fsys file) as [[[data''|]|[entries|]]|] eqn:Hfile'';
    try discriminate Hfile'; js_run.
  injection Hfile as <-. injection Hfile' as <-. reflexivity.
Qed.

Lemma showOverlay_missing (w : World) (bw : BrowserWindow) (file : string) :
  overlayWindow w = Some bw ->
  nth_error (imagePaths w) (currentImageIndex w) = Some file ->
  fileSystem w file = None ->
  showOverlay w =
  (Normal tt,
   set_isOverlayVisible true
     (emit WindowShow
        (set_overlayWindow (Some (mkWindow true (focusable bw) (image bw)))
           (emit (Console LError ("Image file does not exist: " ++ file))
              (emit (Console LLog ("Showing image index "
                                     ++ show_nat (currentImageIndex w) ++ ": " ++ file))
                 w))))).
Proof.
  destruct w as [win paths idx kci vis tbl ts nxt fsys hst tr].
  cbn [overlayWindow imagePaths currentImageIndex fileSystem].
  intros -> Hnth Hfile.
  destruct paths as [|p paths]; [destruct idx; discriminate Hnth|].
  js_run.
  destruct (nth_error (p :: paths) idx) as [file'|]; [|discriminate Hnth].
  injection Hnth as ->. js_run.
  destruct (fsys file) as [[[data'|]|[entries|]]|] eqn:Hfile';
    try discriminate Hfile; js_run.
  reflexivity.
Qed.

(** X9: when the current image can be read, [showOverlay] sends the
    renderer one message on ['show-image'] carrying
    [data:<mime>;base64,<content in base64>], with the MIME type of
    [getMimeType], and only then shows the window; index and catalog are
    not touched. *)
Theorem showOverlay_delivers_data_url
  (w : World) (bw : BrowserWindow) (file data : string) :
  overlayWindow w = Some bw ->
  nth_error (imagePaths w) (currentImageIndex w) = Some file ->
  fileSystem w file = Some (FileNode (Some data)) ->
  let w' := exec showOverlay w in
  let url := "data:" ++ getMimeType file ++ ";base64," ++ toBase64 data in
  fst (showOverlay w) = Normal tt
  /\ filter (fun e => isWebContentsSend e || isWindowShow e) (emitted w w')
     = [WebContentsSend "show-image" url; WindowShow]
  /\ overlayWindow w' = Some (mkWindow true (focusable bw) (Some url))
  /\ isOverlayVisible w' = true
  /\ currentImageIndex w' = currentImageIndex w
  /\ imagePaths w' = imagePaths w.
Proof.
  intros Hw Hnth Hfile w' url.
  pose proof (showOverlay_readable w bw file data Hw Hnth Hfile) as Hrun.
  fold url in Hrun.
  assert (Htr : exists l,
             trace w' = (trace w ++ l)%list
             /\ filter (fun e => isWebContentsSend e || isWindowShow e) l
                = [WebContentsSend "show-image" url; WindowShow]).
  { subst w'. unfold exec. rewrite Hrun. clear. destruct w. cbn.
    repeat rewrite <- app_assoc. eexists. split; reflexivity. }
  destruct Htr as (l & Htr & Hl). rewrite (emitted_app _ _ _ Htr).
  subst w'. unfold exec. rewrite Hrun. cbn [fst snd].
  destruct w. repeat split. exact Hl.
Qed.

Lemma showOverlay_delivers_data_url_witness :
  overlayWindow (exec showOverlay sampleReady)
  = Some (mkWindow true false (Some "data:image/png;base64,TWFu")).
Proof.
  exact (proj1 (proj2 (proj2
           (showOverlay_delivers_data_url sampleReady (mkWindow false false None)
              "/opt/focusring/images/0_gHANif08o4nJZF14.png" "Man"
              eq_refl eq_refl eq_refl)))).
Defined.

(** X10: when the current image file does not exist, [showOverlay] logs
    the error, sends nothing, and still shows the window and sets the
    flag: the renderer keeps whatever image it was given before. *)
Theorem showOverlay_missing_file (w : World) (bw : BrowserWindow) (file : string) :
  overlayWindow w = Some bw ->
  nth_error (imagePaths w) (currentImageIndex w) = Some file ->
  fileSystem w file = None ->
  let w' := exec showOverlay w in
  fst (showOverlay w) = Normal tt
  /\ In (Console LError ("Image file does not exist: " ++ file)) (emitted w w')
  /\ count isWebContentsSend (emitted w w') = 0
  /\ count isWindowShow (emitted w w') = 1
  /\ overlayWindow w' = Some (mkWindow true (focusable bw) (image bw))
  /\ isOverlayVisible w' = true.
Proof.
  intros Hw Hnth Hfile w'.
  pose proof (showOverlay_missing w bw file Hw Hnth Hfile) as Hrun.
  assert (Htr : trace w' =
                (trace w ++
                 [ Console LLog ("Showing image index "
                                   ++ show_nat (currentImageIndex w) ++ ": " ++ file);
                   Console LError ("Image file does not exist: " ++ file);
                   WindowShow ])%list).
  { subst w'. unfold exec. rewrite Hrun. clear. destruct w. cbn.
    now repeat rewrite <- app_assoc. }
  rewrite (emitted_app _ _ _ Htr).
  subst w'. unfold exec. rewrite Hrun. cbn [fst snd].
  destruct w. cbn. repeat split; auto.
Qed.

(** The third catalog image of the sample is missing; the window keeps
    the first image. *)
Lemma showOverlay_missing_file_witness :
  let w := runCycles [([], chordReleased); ([], chordReleased)] sampleReady in
  overlayWindow (exec showOverlay w)
  = Some (mkWindow true false (Some "data:image/png;base64,TWFu")).
Proof.
  intros w.
  exact (proj1 (proj2 (proj2 (proj2 (proj2
           (showOverlay_missing_file w
              (mkWindow false false (Some "data:image/png;base64,TWFu"))
              "/opt/focusring/images/istockphoto-1830236402-612x612.jpg"
              eq_refl eq_refl eq_refl)))))).
Defined.

(** X11: the [showOverlay] of the scanning revision hands the renderer the
    path of the current image itself and never consults the file system:
    with a window and a valid index it sends exactly that path, shows the
    window and sets the flag, whatever the file system holds. *)
Theorem scan_showOverlay_sends_path
  (w : World) (bw : BrowserWindow) (file : string) :
  overlayWindow w = Some bw ->
  nth_error (imagePaths w) (currentImageIndex w) = Some file ->
  let w' := exec ScanRevision.showOverlay w in
  fst (ScanRevision.showOverlay w) = Normal tt
  /\ filter (fun e => isWebContentsSend e || isWindowShow e) (emitted w w')
     = [WebContentsSend "show-image" file; WindowShow]
  /\ overlayWindow w' = Some (mkWindow true (focusable bw) (Some file))
  /\ isOverlayVisible w' = true
  /\ currentImageIndex w' = currentImageIndex w
  /\ forall fsys,
       overlayWindow (exec ScanRevision.showOverlay (set_fileSystem fsys w))
       = overlayWindow w'.
Proof.
  destruct w as [win paths idx kci vis tbl ts nxt fsys hst tr].
  cbn [overlayWindow imagePaths currentImageIndex].
  intros -> Hnth. cbv zeta.
  destruct paths as [|p paths]; [destruct idx; discriminate Hnth|].
  assert (Hrun : forall fs,
             ScanRevision.showOverlay
               (mkWorld (Some bw) (p :: paths) idx kci vis tbl ts nxt fs hst tr)
             = (Normal tt,
                mkWorld (Some (mkWindow true (focusable bw) (Some file)))
                  (p :: paths) idx kci true tbl ts nxt fs hst
                  (tr ++ [ Console LLog ("Showing image index " ++ show_nat idx
                                           ++ ": " ++ file);
                           WebContentsSend "show-image" file;
                           WindowShow ])%list)).
  { intros fs. js_run.
    destruct (nth_error (p :: paths) idx) as [file'|]; [|discriminate Hnth].
    injection Hnth as ->. js_run.
    now repeat rewrite <- app_assoc. }
  unfold exec, set_fileSystem. cbn [overlayWindow imagePaths currentImageIndex
    keyCheckInterval isOverlayVisible shortcutTable activeTimers nextTimerId host trace].
  erewrite emitted_app by (rewrite Hrun; reflexivity).
  rewrite Hrun. cbn [fst snd overlayWindow isOverlayVisible currentImageIndex].
  repeat (split; [reflexivity|]).
  intros fs. now rewrite Hrun.
Qed.

Lemma scan_showOverlay_sends_path_witness :
  let w := exec (ScanRevision.whenReady rebindOk) (initialWorld sampleDirectory sampleHost) in
  overlayWindow (exec ScanRevision.showOverlay w)
  = Some (mkWindow true false (Some "/opt/focusring/images/a.PNG")).
Proof.
  intros w.
  exact (proj1 (proj2 (proj2
           (scan_showOverlay_sends_path w (mkWindow false false None)
              "/opt/focusring/images/a.PNG" eq_refl eq_refl)))).
Defined.

(** ** Presses and cycles *)

Lemma mainShortcutPressed_decompose (w : World) :
  let v := emit (Console LLog (SHORTCUT ++ " pressed")) w in
  fst (showOverlay v) = Normal tt ->
  exec mainShortcutPressed w = exec startKeyCheckTimer (exec showOverlay v).
Proof.
  intros v H. unfold exec, mainShortcutPressed, bind, console_log, update.
  fold v. destruct (showOverlay v) as [[u|e] v']; [reflexivity|discriminate H].
Qed.

Lemma startKeyCheckTimer_window (w : World) :
  overlayWindow (exec startKeyCheckTimer w) = overlayWindow w.
Proof. destruct w as [win paths idx kci vis tbl ts nxt fsys hst tr]. now destruct kci. Qed.

Lemma dispatch_fileSystem (e : Event) (w : World) :
  (forall fsys, e <> FileSystemChanged fsys) ->
  fileSystem (dispatch e w) = fileSystem w.
Proof.
  intros He. destruct e as [|t a| | | |fsys].
  - rewrite dispatch_shortcut. destruct (shortcutTable w) as [[|]|]; auto.
    now destruct (mainShortcutPressed_spec w) as (l & _ & _ & _ & _ & _ & _ & Hf & _).
  - rewrite dispatch_interval. destruct (existsb _ _); auto.
    now destruct (keyCheckTick_spec w a) as (l & _ & _ & _ & _ & _ & Hf & _).
  - now destruct w.
  - unfold dispatch, handle, onActivate, exec, bind, read.
    destruct (overlayWindow w); cbn [isNull fst snd]; [reflexivity|].
    destruct (loadImagePaths_spec w) as (Hn & _ & _ & _ & _ & _ & _ & _ & _ & Hf & _).
    unfold exec in Hf. destruct (loadImagePaths w) as [[u|e] v]; cbn in *;
      [|discriminate Hn].
    rewrite <- Hf. now destruct v.
  - destruct w as [win paths idx kci vis tbl ts nxt fs hst tr]. now destruct kci.
  - now elim (He fsys).
Qed.

Lemma run_fileSystem (es : list Event) (w : World) :
  Forall (fun e => forall fsys, e <> FileSystemChanged fsys) es ->
  fileSystem (run es w) = fileSystem w.
Proof.
  intros H. revert w. induction H as [|e es He _ IH]; intros w; [reflexivity|].
  change (run (e :: es) w) with (run es (dispatch e w)).
  now rewrite IH, dispatch_fileSystem.
Qed.

Lemma runCycles_fileSystem (cs : list (list ProbeAnswers * ProbeAnswers)) (w : World) :
  fileSystem (runCycles cs w) = fileSystem w.
Proof.
  revert w. induction cs as [|c cs IH]; intros w; [reflexivity|].
  change (runCycles (c :: cs) w) with (runCycles cs (pressReleaseCycle c w)).
  rewrite IH. unfold pressReleaseCycle.
  destruct (keyCheckInterval (dispatch ShortcutFired w)) as [t|].
  - rewrite run_fileSystem.
    + apply dispatch_fileSystem. discriminate.
    + apply Forall_app. split.
      * unfold ticksOf. apply Forall_map, Forall_forall. discriminate.
      * constructor; [discriminate|constructor].
  - apply dispatch_fileSystem. discriminate.
Qed.

(** X12: the images are shown round-robin: after [N] complete
    press/release cycles from the idle state with index 0, the next press
    displays the image at position [N mod K] of the catalog (here: sends
    its data URL and shows the window). *)
Theorem next_press_shows_rotated_image
  (w : World) (cs : list (list ProbeAnswers * ProbeAnswers)) (file data : string) :
  idle w ->
  currentImageIndex w = 0 ->
  Forall completeCycle cs ->
  nth_error (imagePaths w) (length cs mod length (imagePaths w)) = Some file ->
  fileSystem w file = Some (FileNode (Some data)) ->
  let v := dispatch ShortcutFired (runCycles cs w) in
  exists bw,
    overlayWindow v = Some bw
    /\ shown bw = true
    /\ image bw = Some ("data:" ++ getMimeType file ++ ";base64," ++ toBase64 data)
    /\ isOverlayVisible v = true
    /\ currentImageIndex v = length cs mod length (imagePaths w).
Proof.
  intros Hidle Hi0 Hcs Hnth Hfile v.
  assert (Hp : imagePaths w <> []).
  { intros E. rewrite E in Hnth. destruct (length cs mod length []); discriminate Hnth. }
  set (u := runCycles cs w) in *.
  assert (Hu : idle u /\ imagePaths u = imagePaths w
               /\ currentImageIndex u = length cs mod length (imagePaths w)).
  { destruct (runCycles_index cs w Hidle Hp Hcs) as [(H1 & H2 & H3) | (E1 & E2)].
    - rewrite Hi0 in H3. auto.
    - fold u in E2. rewrite E2, E1, Hi0. cbn [length].
      rewrite Nat.Div0.mod_0_l. auto. }
  destruct Hu as ((Hwin & Hvis & Hk & Ht & Hs) & Hpu & Hiu).
  destruct (overlayWindow u) as [bw|] eqn:Ewin; [|contradiction].
  set (u1 := emit (Console LLog (SHORTCUT ++ " pressed")) u).
  assert (Hshow : showOverlay u1 = _)
    by (apply (showOverlay_readable u1 bw file data);
        [ exact Ewin
        | change (nth_error (imagePaths u) (currentImageIndex u) = Some file);
          now rewrite Hpu, Hiu
        | change (fileSystem u file = Some (FileNode (Some data)));
          unfold u; now rewrite runCycles_fileSystem ]).
  cbv zeta in Hshow.
  subst v. rewrite dispatch_shortcut, Hs.
  rewrite (mainShortcutPressed_decompose u) by (fold u1; now rewrite Hshow).
  fold u1.
  destruct (mainShortcutPressed_spec u) as (l & _ & _ & _ & _ & _ & Hi1 & _ & _ & _ & _ & _ & _ & Hc).
  rewrite (mainShortcutPressed_decompose u) in Hi1, Hc by (fold u1; now rewrite Hshow).
  fold u1 in Hi1, Hc.
  rewrite Ewin in Hc. destruct (imagePaths u) eqn:Epu; [congruence|].
  cbn in Hc. destruct Hc as (Hv1 & _).
  eexists. split.
  - rewrite startKeyCheckTimer_window. unfold exec. rewrite Hshow. reflexivity.
  - cbn. repeat split; auto. now rewrite Hi1.
Qed.

(** Five cycles on the sample: the next press shows image [5 mod 4 = 1]
    of a catalog whose second file is readable. *)
Lemma next_press_shows_rotated_image_witness :
  let fs : FileSystem :=
    fun p => if String.eqb p "/opt/focusring/images/istockphoto-1257169887-612x612.jpg"
             then Some (FileNode (Some "hi")) else None in
  let w := readyWorld fs sampleHost rebindOk in
  let cs := [([], chordReleased); ([chordHeld], chordReleased); ([], chordReleased);
             ([], chordReleased); ([chordHeld; chordHeld], chordReleased)] in
  exists bw,
    overlayWindow (dispatch ShortcutFired (runCycles cs w)) = Some bw
    /\ image bw = Some "data:image/jpeg;base64,aGk=".
Proof.
  intros fs w cs.
  assert (Hidle : idle w) by (unfold idle; repeat split; discriminate).
  assert (Hcs : Forall completeCycle cs) by (repeat constructor).
  destruct (next_press_shows_rotated_image w cs
              "/opt/focusring/images/istockphoto-1257169887-612x612.jpg" "hi"
              Hidle eq_refl Hcs eq_refl eq_refl)
    as (bw & Hw & _ & Hi & _).
  exists bw. split; [exact Hw|exact Hi].
Defined.

(** X13: a press that arrives while the poll is already running (key
    repeat while the chord is held) restarts the poll and shows the same
    image again; it neither hides nor advances.  So after any number of
    presses in a row, one tick that infers release ends the cycle with a
    single [hide()], the index one step further, and no interval left. *)
Theorem repeated_press_is_one_cycle (w : World) (n : nat) (a : ProbeAnswers) :
  idle w ->
  imagePaths w <> [] ->
  answersRelease a = true ->
  let p := Nat.iter (S n) (dispatch ShortcutFired) w in
  let t := nextTimerId w + n in
  let r := dispatch (IntervalFired t a) p in
  keyCheckInterval p = Some t
  /\ activeTimers p = [t]
  /\ isOverlayVisible p = true
  /\ currentImageIndex p = currentImageIndex w
  /\ count isWindowHide (emitted w p) = 0
  /\ count isSetInterval (emitted w p) = S n
  /\ currentImageIndex r = (currentImageIndex w + 1) mod length (imagePaths w)
  /\ isOverlayVisible r = false
  /\ keyCheckInterval r = None
  /\ activeTimers r = []
  /\ count isWindowHide (emitted w r) = 1.
Proof.
  intros (Hwin & Hvis & Hk & Ht & Hs) Hp Hrel p t r.
  assert (Hinv : forall k,
             let q := Nat.iter (S k) (dispatch ShortcutFired) w in
             keyCheckInterval q = Some (nextTimerId w + k)
             /\ activeTimers q = [nextTimerId w + k]
             /\ nextTimerId q = S (nextTimerId w + k)
             /\ isOverlayVisible q = true
             /\ overlayWindow q <> None
             /\ shortcutTable q = Some MainShortcutHandler
             /\ currentImageIndex q = currentImageIndex w
             /\ imagePaths q = imagePaths w
             /\ exists l, trace q = (trace w ++ l)%list
                  /\ count isWindowHide l = 0 /\ count isSetInterval l = S k).
  { induction k as [|k IH].
    - change (Nat.iter 1 (dispatch ShortcutFired) w) with (dispatch ShortcutFired w).
      cbv zeta. rewrite dispatch_shortcut, Hs.
      destruct (mainShortcutPressed_spec w)
        as (l & Htr & Hh & Hsi & _ & Hp1 & Hi1 & _ & _ & Hs1 & Hk1 & Hn1 & Ht1 & Hc).
      rewrite Hk, Ht in Ht1. rewrite Nat.add_0_r.
      destruct (overlayWindow w); [|contradiction].
      destruct (imagePaths w) eqn:E; [contradiction|]. cbn [isNull orb length Nat.eqb] in Hc.
      destruct Hc as (Hv1 & _ & bw1 & Hw1 & _).
      repeat split; auto; try congruence; try (rewrite Hw1; discriminate).
      exists l. auto.
    - destruct IH as (Hk0 & Ht0 & Hn0 & Hv0 & Hw0 & Hs0 & Hi0 & Hp0 & l0 & Htr0 & Hh0 & Hsi0).
      set (q0 := Nat.iter (S k) (dispatch ShortcutFired) w) in *.
      change (Nat.iter (S (S k)) (dispatch ShortcutFired) w)
        with (dispatch ShortcutFired q0).
      cbv zeta. rewrite dispatch_shortcut, Hs0.
      destruct (mainShortcutPressed_spec q0)
        as (l & Htr & Hh & Hsi & _ & Hp1 & Hi1 & _ & _ & Hs1 & Hk1 & Hn1 & Ht1 & Hc).
      rewrite Hk0, Ht0, filter_self in Ht1.
      destruct (overlayWindow q0); [|contradiction].
      rewrite Hp0 in Hc. destruct (imagePaths w) eqn:E; [contradiction|]. cbn [isNull orb length Nat.eqb] in Hc.
      destruct Hc as (Hv1 & _ & bw1 & Hw1 & _).
      rewrite Hn0 in Hk1, Hn1, Ht1.
      replace (nextTimerId w + S k) with (S (nextTimerId w + k)) by lia.
      repeat split; auto; try congruence; try (rewrite Hw1; discriminate).
      exists (l0 ++ l)%list. rewrite Htr, Htr0, app_assoc, !count_app.
      repeat split; lia. }
  destruct (Hinv n) as (Hk0 & Ht0 & _ & Hv0 & Hw0 & _ & Hi0 & Hp0 & l0 & Htr0 & Hh0 & Hsi0).
  fold p t in Hk0, Ht0, Hv0, Hw0, Hi0, Hp0, Htr0.
  rewrite (emitted_app _ _ _ Htr0).
  assert (Hr : r = exec (keyCheckTick a) p)
    by (subst r; now rewrite dispatch_interval, Ht0, existsb_timer).
  destruct (keyCheckTick_spec p a) as (l & Htr & _ & _ & _ & _ & _ & _ & Hc).
  rewrite <- Hr in Htr, Hc.
  rewrite Hrel, Hv0, Hk0, Ht0, filter_self in Hc.
  destruct (overlayWindow p); [|contradiction].
  destruct Hc as (Hk1 & Ht1 & _ & _ & _ & _ & Hv1 & Hi1 & Hh1).
  assert (Htr' : trace r = (trace w ++ (l0 ++ l))%list)
    by (now rewrite Htr, Htr0, app_assoc).
  rewrite (emitted_app _ _ _ Htr'), count_app.
  repeat split; auto; try lia.
  rewrite Hi1, Hi0, Hp0. unfold orOne.
  destruct (imagePaths w); [contradiction|reflexivity].
Qed.

Lemma repeated_press_is_one_cycle_witness :
  let p := Nat.iter 3 (dispatch ShortcutFired) sampleReady in
  let r := dispatch (IntervalFired 2 chordReleased) p in
  activeTimers p = [2] /\ currentImageIndex r = 1 /\ activeTimers r = [].
Proof.
  intros p r.
  assert (Hidle : idle sampleReady) by (unfold idle; repeat split; discriminate).
  assert (Hp : imagePaths sampleReady <> []) by discriminate.
  destruct (repeated_press_is_one_cycle sampleReady 2 chordReleased Hidle Hp eq_refl)
    as (_ & Ht & _ & _ & _ & _ & Hi & _ & _ & Hr & _).
  split; [exact Ht|]. split; [exact Hi|exact Hr].
Defined.

(** ** Edge cases of the probe and of the earlier revisions *)

(** X14: when the images path exists but cannot be listed (a directory
    that cannot be read, or a plain file in its place), the scanning
    [loadImagePaths] logs the error and returns normally with an empty
    catalog and index 0; it creates nothing. *)
Theorem scan_load_unlistable (w : World) :
  (fileSystem w (imagesDir (host w)) = Some (DirNode None)
   \/ exists d, fileSystem w (imagesDir (host w)) = Some (FileNode d)) ->
  let w' := exec ScanRevision.loadImagePaths w in
  fst (ScanRevision.loadImagePaths w) = Normal tt
  /\ imagePaths w' = []
  /\ currentImageIndex w' = 0
  /\ fileSystem w' = fileSystem w
  /\ count isMkdir (emitted w w') = 0
  /\ exists msg,
       In (Console LError ("Error reading images directory: " ++ msg)) (emitted w w').
Proof.
  intros Hcase w'.
  destruct (scan_load_spec w) as (Hn & Hi & _ & l & Htr & Hc).
  fold w' in Hi, Htr, Hc.
  assert (Hlog : exists msg,
             In (Console LError ("Error reading images directory: " ++ msg)) l).
  { subst w'. clear - Hcase Htr.
    destruct w as [win paths idx kci vis tbl ts nxt fsys hst tr].
    destruct hst as [ap dir wr]. cbn [host imagesDir fileSystem] in Hcase.
    revert Htr. js_run.
    destruct (fsys dir) as [[data|[entries|]]|] eqn:Hdir; js_run;
      try (destruct Hcase as [H|[d H]]; discriminate H);
      (destruct (fsys dir) as [[data'|[entries'|]]|] eqn:Hdir';
       try discriminate Hdir; js_run);
      intros Htr; repeat rewrite <- app_assoc in Htr;
      apply app_inv_head in Htr; subst l; eexists; cbn; eauto. }
  rewrite (emitted_app _ _ _ Htr).
  destruct Hcase as [H|[d H]]; rewrite H in Hc; destruct Hc as (Hp & Hf & Hm);
    repeat split; auto.
Qed.

Lemma scan_load_unlistable_witness :
  let fs : FileSystem :=
    fun p => if String.eqb p "/opt/focusring/images" then Some (FileNode (Some "x"))
             else None in
  imagePaths (exec ScanRevision.loadImagePaths (initialWorld fs sampleHost)) = []
  /\ fst (ScanRevision.loadImagePaths (initialWorld fs sampleHost)) = Normal tt.
Proof.
  intros fs.
  pose proof (scan_load_unlistable (initialWorld fs sampleHost)
                (or_intror (ex_intro _ (Some "x") eq_refl)))
    as (Hn & Hp & _).
  split; [exact Hp|exact Hn].
Defined.

(** X15: if the probe's [register] succeeds but its [unregister] then
    throws, the [catch] resets [keyReleased]: no release is inferred, the
    poll keeps running and nothing is hidden, while the probe's empty
    closure stays registered in place of the press handler, so a press
    does nothing until a later tick restores the handler. *)
Theorem probe_unregister_throws (w : World) (e : string) (rb : RebindAnswers) :
  let a := mkProbe RegisterTrue (UnregisterThrows e) rb in
  let w' := exec (keyCheckTick a) w in
  keyReleasedBy a w = false
  /\ shortcutTable w' = Some ProbeHandler
  /\ keyCheckInterval w' = keyCheckInterval w
  /\ activeTimers w' = activeTimers w
  /\ isOverlayVisible w' = isOverlayVisible w
  /\ currentImageIndex w' = currentImageIndex w
  /\ overlayWindow w' = overlayWindow w
  /\ emitted w w' = [ShortcutRegister ProbeHandler RegisterTrue;
                     ShortcutUnregister (UnregisterThrows e)]
  /\ dispatch ShortcutFired w' = w'
  /\ shortcutTable (exec (keyCheckTick (mkProbe RegisterTrue UnregisterDone rebindOk)) w')
     = Some MainShortcutHandler.
Proof.
  destruct w as [win paths idx kci vis tbl ts nxt fsys hst tr].
  cbv zeta.
  erewrite emitted_app by (js_run; repeat rewrite <- app_assoc; reflexivity).
  repeat split.
  destruct kci, vis, win; reflexivity.
Qed.

(** X16: in the [registerAll] revision a release inferred while the
    overlay is not visible only cancels the poll: [registerMainShortcut]
    is not called, so the press handler is not what the shortcut table
    holds afterwards. *)
Theorem registerAll_hidden_release_keeps_probe (w : World) (a : ProbeAnswers) :
  isOverlayVisible w = false ->
  probeRegister a = RegisterTrue ->
  let w' := exec (RegisterAllRevision.keyCheckTick a) w in
  keyCheckInterval w' = None
  /\ count isMainRegister (emitted w w') = 0
  /\ shortcutTable w' <> Some MainShortcutHandler
  /\ currentImageIndex w' = currentImageIndex w
  /\ isOverlayVisible w' = false
  /\ count isWindowHide (emitted w w') = 0.
Proof.
  destruct w as [win paths idx kci vis tbl ts nxt fsys hst tr].
  destruct a as [pr pu rb].
  cbn [isOverlayVisible probeRegister]. intros -> ->. cbv zeta.
  destruct kci;
    (erewrite emitted_app by (js_run; repeat rewrite <- app_assoc; reflexivity));
    js_run; cbn; repeat split; discriminate.
Qed.

Lemma registerAll_hidden_release_keeps_probe_witness :
  let w := run [WindowClosed; ShortcutFired] sampleReady in
  let w' := exec (RegisterAllRevision.keyCheckTick chordReleased) w in
  keyCheckInterval w' = None /\ shortcutTable w' <> Some MainShortcutHandler.
Proof.
  intros w w'.
  pose proof (registerAll_hidden_release_keeps_probe w chordReleased eq_refl eq_refl)
    as (Hk & _ & Hs & _).
  split; [exact Hk|exact Hs].
Defined.

(** X17: the [registerMainShortcut] of the [registerAll] revision calls
    [unregister] without a guard: when that call throws, the exception
    reaches the caller and [register] is never attempted, whereas the one
    of [main.ts] warns and registers all the same. *)
Theorem registerAll_unguarded_unregister (w : World) (e : string) (r : RegisterAnswer) :
  let a := mkRebind (UnregisterThrows e) r in
  fst (RegisterAllRevision.registerMainShortcut a w) = Thrown e
  /\ count isMainRegister
       (emitted w (exec (RegisterAllRevision.registerMainShortcut a) w)) = 0
  /\ shortcutTable (exec (RegisterAllRevision.registerMainShortcut a) w) = shortcutTable w
  /\ count isMainRegister (emitted w (exec (registerMainShortcut a) w)) = 1
  /\ (r = RegisterTrue ->
      fst (registerMainShortcut a w) = Normal tt
      /\ shortcutTable (exec (registerMainShortcut a) w) = Some MainShortcutHandler).
Proof.
  destruct w as [win paths idx kci vis tbl ts nxt fsys hst tr].
  cbv zeta.
  erewrite emitted_app by (js_run; repeat rewrite <- app_assoc; reflexivity).
  destruct r as [| |e2];
    (erewrite emitted_app by (js_run; repeat rewrite <- app_assoc; reflexivity));
    js_run; cbn; repeat split; discriminate.
Qed.

Lemma registerAll_unguarded_unregister_witness :
  shortcutTable
    (exec (registerMainShortcut (mkRebind (UnregisterThrows "busy") RegisterTrue))
          (initialWorld sampleFiles sampleHost))
  = Some MainShortcutHandler.
Proof.
  exact (proj2 (proj2 (proj2 (proj2 (proj2
           (registerAll_unguarded_unregister (initialWorld sampleFiles sampleHost)
              "busy" RegisterTrue)))) eq_refl)).
Defined.

(** X18: the program recovers from a closed overlay window.  From a state
    with no window, no poll and the press handler installed (whatever the
    visibility flag was left at), activate followed by one press and one
    tick that infers release shows the first catalog image's window and
    ends with the window hidden, the flag false, no poll, and the index at
    1. *)
Theorem recovery_after_window_closed (w : World) (a : ProbeAnswers) :
  overlayWindow w = None ->
  keyCheckInterval w = None ->
  activeTimers w = [] ->
  shortcutTable w = Some MainShortcutHandler ->
  answersRelease a = true ->
  let w1 := dispatch Activate w in
  let w2 := dispatch ShortcutFired w1 in
  let w3 := dispatch (IntervalFired (nextTimerId w) a) w2 in
  overlayWindow w1 = Some (mkWindow false false None)
  /\ currentImageIndex w2 = 0
  /\ isOverlayVisible w2 = true
  /\ (exists bw, overlayWindow w2 = Some bw /\ shown bw = true)
  /\ keyCheckInterval w2 = Some (nextTimerId w)
  /\ isOverlayVisible w3 = false
  /\ (exists bw, overlayWindow w3 = Some bw /\ shown bw = false)
  /\ keyCheckInterval w3 = None
  /\ activeTimers w3 = []
  /\ currentImageIndex w3 = 1.
Proof.
  intros Hw Hk Ht Hs Hrel w1 w2 w3.
  destruct (onActivate_spec w) as (Hk1 & _ & Hs1 & Ht1 & Hn1 & Hc1 & _).
  change (exec onActivate w) with w1 in *.
  rewrite Hw in Hc1. destruct Hc1 as (Hw1 & Hi1 & Hp1).
  assert (Hlen : length (imagePaths w1) = 4) by (now rewrite Hp1, length_map).
  assert (Hpress : w2 = exec mainShortcutPressed w1)
    by (subst w2; now rewrite dispatch_shortcut, Hs1, Hs).
  destruct (mainShortcutPressed_spec w1)
    as (l2 & _ & _ & _ & _ & Hp2 & Hi2 & _ & _ & _ & Hk2 & _ & Ht2 & Hc2).
  rewrite <- Hpress in Hp2, Hi2, Hk2, Ht2, Hc2.
  rewrite Hw1 in Hc2. destruct (imagePaths w1) as [|p ps] eqn:Ep; [discriminate Hlen|].
  cbn [isNull orb length Nat.eqb] in Hc2.
  destruct Hc2 as (Hv2 & _ & bw2 & Hw2 & Hshown2).
  rewrite Hk1, Hk, Ht1, Ht in Ht2. rewrite Hn1 in Hk2, Ht2.
  assert (Htick : w3 = exec (keyCheckTick a) w2)
    by (subst w3; now rewrite dispatch_interval, Ht2, existsb_timer).
  destruct (keyCheckTick_spec w2 a) as (l3 & _ & _ & _ & _ & _ & _ & _ & Hc3).
  rewrite <- Htick in Hc3.
  rewrite Hrel, Hv2, Hw2, Hk2, Ht2, filter_self in Hc3.
  destruct Hc3 as (Hk3 & Ht3 & _ & _ & _ & Hw3 & Hv3 & Hi3 & _).
  repeat split; auto; try congruence; eauto.
  rewrite Hi3, Hi2, Hi1, Hp2, Hlen. reflexivity.
Qed.

Lemma recovery_after_window_closed_witness :
  let w := run [ShortcutFired; WindowClosed; IntervalFired 0 chordReleased] sampleReady in
  isOverlayVisible w = true
  /\ currentImageIndex
       (run [Activate; ShortcutFired; IntervalFired 1 chordReleased] w) = 1
  /\ isOverlayVisible
       (run [Activate; ShortcutFired; IntervalFired 1 chordReleased] w) = false.
Proof.
  intros w.
  pose proof (recovery_after_window_closed w chordReleased
                eq_refl eq_refl eq_refl eq_refl eq_refl)
    as (_ & _ & _ & _ & _ & Hv & _ & _ & _ & Hi).
  split; [reflexivity|]. split; [exact Hi|exact Hv].
Defined.

(** ** The scanning revision as a running program *)

Lemma scan_dispatch_index (e : Event) (w : World) :
  currentImageIndex w < orOne (length (imagePaths w)) ->
  currentImageIndex (ScanLoop.dispatch e w)
  < orOne (length (imagePaths (ScanLoop.dispatch e w))).
Proof.
  intros H. destruct e as [|t a| | | |fsys].
  - destruct w as [win paths idx kci vis tbl ts nxt fsys hst tr].
    destruct tbl as [[|]|]; try exact H.
    destruct win as [bw|]; [destruct paths as [|p paths]|];
      destruct kci; js_run; try exact H;
      destruct (nth_error (p :: paths) idx); js_run; exact H.
  - unfold ScanLoop.dispatch, ScanLoop.handle, exec, bind, read. cbn [fst snd].
    destruct (existsb (Nat.eqb t) (activeTimers w)); [|exact H].
    destruct w as [win paths idx kci vis tbl ts nxt fsys hst tr].
    destruct a as [pr pu [mu mr]].
    cbn [currentImageIndex imagePaths] in H.
    assert (Hmod : (idx + 1) mod orOne (length paths) < orOne (length paths))
      by (apply Nat.mod_upper_bound; unfold orOne; destruct (length paths); discriminate).
    destruct pr, pu, mu, mr, kci, vis, win; js_run; auto.
  - destruct w; exact H.
  - unfold ScanLoop.dispatch, ScanLoop.handle, ScanLoop.onActivate, exec, bind, read.
    destruct (overlayWindow w); cbn [isNull fst snd]; [exact H|].
    destruct (scan_load_spec w) as (Hn & Hi & _).
    unfold exec in Hi. destruct (ScanRevision.loadImagePaths w) as [[u|e] v];
      cbn [fst snd] in *; [|discriminate Hn].
    destruct v as [win paths idx kci vis tbl ts nxt fsys hst tr].
    cbn in Hi. subst idx. cbn. unfold orOne. destruct (length paths); cbn; lia.
  - destruct w as [win paths idx kci vis tbl ts nxt fs hst tr].
    destruct kci; exact H.
  - destruct w; exact H.
Qed.

(** X19: in the scanning revision the catalog can have any size, and in
    every reachable state [currentImageIndex] is below
    [max(len(imagePaths), 1)]: it is 0 while the catalog is empty and a
    valid position otherwise, so a press never sends [undefined]. *)
Theorem scan_reachable_index_in_range (w : World) :
  ScanLoop.reachable w ->
  currentImageIndex w < Nat.max (length (imagePaths w)) 1
  /\ (imagePaths w <> [] ->
      exists file, nth_error (imagePaths w) (currentImageIndex w) = Some file).
Proof.
  intros Hr.
  assert (H : currentImageIndex w < orOne (length (imagePaths w))).
  { induction Hr as [fsys h a | w e Hw IH].
    - unfold ScanLoop.readyWorld, ScanLoop.whenReady, exec, bind.
      destruct (scan_load_spec (initialWorld fsys h)) as (Hn & Hi & _).
      unfold exec in Hi.
      destruct (ScanRevision.loadImagePaths (initialWorld fsys h)) as [[u|e] v];
        cbn [fst snd] in *; [|discriminate Hn].
      destruct v as [win paths idx kci vis tbl ts nxt fs hst tr].
      cbn in Hi. subst idx. destruct a as [mu mr].
      assert (H0 : 0 < orOne (length paths))
        by (unfold orOne; destruct (length paths); cbn; lia).
      destruct mu, mr; js_run; exact H0.
    - now apply scan_dispatch_index. }
  rewrite <- orOne_max. split; [exact H|].
  intros Hne.
  destruct (nth_error (imagePaths w) (currentImageIndex w)) as [file|] eqn:E; eauto.
  apply nth_error_None in E. unfold orOne in H.
  destruct (imagePaths w); [contradiction|]. cbn in *. lia.
Qed.

Lemma scan_reachable_index_in_range_witness :
  let w := ScanLoop.run [ShortcutFired; IntervalFired 0 chordReleased; ShortcutFired]
             (ScanLoop.readyWorld sampleDirectory sampleHost rebindOk) in
  exists file, nth_error (imagePaths w) (currentImageIndex w) = Some file.
Proof.
  intros w.
  refine (proj2 (scan_reachable_index_in_range w _) _).
  - exact (ScanLoop.reachable_step _ ShortcutFired
             (ScanLoop.reachable_step _ (IntervalFired 0 chordReleased)
                (ScanLoop.reachable_step _ ShortcutFired
                   (ScanLoop.reachable_ready sampleDirectory sampleHost rebindOk)))).
  - intros E. vm_compute in E. discriminate E.
Defined.

Lemma scan_dispatch_empty (e : Event) (w : World) :
  e <> Activate ->
  imagePaths w = [] ->
  currentImageIndex w = 0 ->
  isOverlayVisible w = false ->
  let w' := ScanLoop.dispatch e w in
  imagePaths w' = []
  /\ currentImageIndex w' = 0
  /\ isOverlayVisible w' = false
  /\ exists l,
       trace w' = (trace w ++ l)%list
       /\ count isWindowShow l = 0
       /\ count isWebContentsSend l = 0
       /\ count isWindowHide l = 0.
Proof.
  intros He Hp Hi Hv.
  assert (Hnil : exists l, trace w = (trace w ++ l)%list
                   /\ count isWindowShow l = 0
                   /\ count isWebContentsSend l = 0
                   /\ count isWindowHide l = 0)
    by (exists []; rewrite app_nil_r; auto).
  destruct e as [|t a| | | |fsys]; try (now elim He).
  - destruct w as [win paths idx kci vis tbl ts nxt fsys hst tr].
    cbn in Hp, Hi, Hv. subst paths idx vis.
    destruct tbl as [[|]|];
      [ destruct win, kci; js_run; repeat split; trace_tail
      | js_run; repeat split; exact Hnil
      | js_run; repeat split; exact Hnil ].
  - unfold ScanLoop.dispatch, ScanLoop.handle, exec, bind, read. cbn [fst snd].
    destruct (existsb (Nat.eqb t) (activeTimers w)); [|cbv zeta; auto].
    destruct w as [win paths idx kci vis tbl ts nxt fsys hst tr].
    cbn in Hp, Hi, Hv. subst paths idx vis.
    destruct a as [pr pu [mu mr]].
    destruct pr, pu, mu, mr, kci, win; js_run; repeat split; trace_tail.
  - destruct w as [win paths idx kci vis tbl ts nxt fsys hst tr].
    cbn in Hp, Hi, Hv. subst paths idx vis. js_run. repeat split. exact Hnil.
  - destruct w as [win paths idx kci vis tbl ts nxt fsys hst tr].
    cbn in Hp, Hi, Hv. subst paths idx vis.
    destruct kci; js_run; repeat split; trace_tail.
  - destruct w as [win paths idx kci vis tbl ts nxt fs hst tr].
    cbn in Hp, Hi, Hv. subst paths idx vis. js_run. repeat split. exact Hnil.
Qed.

(** X20: in the scanning revision, while the catalog is empty nothing is
    ever displayed: whatever presses, ticks, window closings, shutdowns
    and file-system changes follow (short of an activate that reloads the
    catalog), no window is shown or hidden, nothing is sent to the
    renderer, the flag stays false and the index stays 0. *)
Theorem scan_empty_catalog_never_shows (w : World) (es : list Event) :
  imagePaths w = [] ->
  currentImageIndex w = 0 ->
  isOverlayVisible w = false ->
  Forall (fun e => e <> Activate) es ->
  let w' := ScanLoop.run es w in
  imagePaths w' = []
  /\ currentImageIndex w' = 0
  /\ isOverlayVisible w' = false
  /\ count isWindowShow (emitted w w') = 0
  /\ count isWebContentsSend (emitted w w') = 0
  /\ count isWindowHide (emitted w w') = 0.
Proof.
  intros Hp Hi Hv Hes w'.
  assert (H : imagePaths w' = [] /\ currentImageIndex w' = 0
              /\ isOverlayVisible w' = false
              /\ exists l, trace w' = (trace w ++ l)%list
                   /\ count isWindowShow l = 0
                   /\ count isWebContentsSend l = 0
                   /\ count isWindowHide l = 0).
  { subst w'. revert w Hp Hi Hv.
    induction Hes as [|e es He _ IH]; intros w Hp Hi Hv.
    - repeat split; auto. exists []. rewrite app_nil_r. auto.
    - change (ScanLoop.run (e :: es) w)
        with (ScanLoop.run es (ScanLoop.dispatch e w)).
      destruct (scan_dispatch_empty e w He Hp Hi Hv)
        as (Hp1 & Hi1 & Hv1 & l1 & Htr1 & Hs1 & Hw1 & Hh1).
      destruct (IH _ Hp1 Hi1 Hv1) as (Hp2 & Hi2 & Hv2 & l2 & Htr2 & Hs2 & Hw2 & Hh2).
      repeat split; auto.
      exists (l1 ++ l2)%list. rewrite Htr2, Htr1, app_assoc, !count_app.
      repeat split; lia. }
  destruct H as (H1 & H2 & H3 & l & Htr & H4 & H5 & H6).
  rewrite (emitted_app _ _ _ Htr). repeat split; assumption.
Qed.

Lemma scan_empty_catalog_never_shows_witness :
  let w := ScanLoop.readyWorld (fun _ => None) sampleHost rebindOk in
  let w' := ScanLoop.run [ShortcutFired; IntervalFired 0 chordHeld;
                          IntervalFired 0 chordReleased; ShortcutFired; WillQuit] w in
  count isWindowShow (emitted w w') = 0 /\ currentImageIndex w' = 0.
Proof.
  intros w w'.
  assert (Hes : Forall (fun e => e <> Activate)
                  [ShortcutFired; IntervalFired 0 chordHeld;
                   IntervalFired 0 chordReleased; ShortcutFired; WillQuit])
    by (repeat constructor; discriminate).
  pose proof (scan_empty_catalog_never_shows w _ eq_refl eq_refl eq_refl Hes)
    as (_ & Hi & _ & Hs & _).
  split; [exact Hs|exact Hi].
Defined.
